(** * The user context of the health tracker: a verified model

    Shallow embedding of [src/contexts/user-context.tsx]: the profile record,
    the built-in default profile, the two effects of [UserProvider] (load from
    and save to [localStorage]), the six state updaters and the [useUser]
    accessor, together with the part of the JavaScript run time the file
    calls ([JSON.parse], [JSON.stringify], strings, numbers, exceptions). *)

From Stdlib Require Import String Ascii Bool NArith ZArith Lia Arith List.
Import ListNotations.

#[local] Set Warnings "-register-all".

Local Open Scope N_scope.

(** Arithmetic on variables stays folded under [simpl]. *)
#[local] Arguments N.add : simpl nomatch.
#[local] Arguments N.sub : simpl nomatch.
#[local] Arguments N.mul : simpl nomatch.
#[local] Arguments N.div : simpl nomatch.
#[local] Arguments N.modulo : simpl nomatch.
#[local] Arguments N.pow : simpl nomatch.
#[local] Arguments N.eqb : simpl nomatch.
#[local] Arguments N.leb : simpl nomatch.
#[local] Arguments N.ltb : simpl nomatch.
#[local] Arguments Z.add : simpl nomatch.
#[local] Arguments Z.sub : simpl nomatch.
#[local] Arguments Z.mul : simpl nomatch.
#[local] Arguments Z.opp : simpl nomatch.
#[local] Arguments Z.leb : simpl nomatch.
#[local] Arguments Z.ltb : simpl nomatch.
#[local] Arguments Z.of_nat : simpl nomatch.
#[local] Arguments Z.to_nat : simpl nomatch.

(* ================================================================== *)
(** ** JavaScript values the source handles *)

Module Js.

(** A JavaScript string is a sequence of 16-bit code units. *)
Abbreviation char16 := N (only parsing).
Abbreviation jsstring := (list N) (only parsing).

(** A source-code string literal (ASCII) as a JavaScript string. *)
Definition u (s : string) : jsstring :=
  map N_of_ascii (list_ascii_of_string s).

(** [a === b] on strings. *)
Fixpoint str_eqb (a b : jsstring) : bool :=
  match a, b with
  | [], [] => true
  | x :: a', y :: b' => (x =? y) && str_eqb a' b'
  | _, _ => false
  end.

(** A Number value.  A finite number is kept as the decimal that
    [Number::toString] prints for it: sign, significand and power of ten,
    [Finite neg s e] standing for [(-1)^neg * s * 10^e].  The rounding of
    decimals to binary64 is outside the model. *)
Inductive number :=
| NaN
| Infinity (negative : bool)
| Finite (negative : bool) (significand : N) (exponent : Z).

(** The representation invariant of [Finite]: the significand carries no
    trailing zero, and zero has exponent zero. *)
Definition canonical (x : number) : Prop :=
  match x with
  | Finite _ s e => if s =? 0 then e = 0%Z else s mod 10 <> 0
  | _ => True
  end.

Fixpoint strip10 (fuel : nat) (s : N) (e : Z) : N * Z :=
  match fuel with
  | O => (s, e)
  | S f => if (s =? 0) || negb (s mod 10 =? 0) then (s, e)
           else strip10 f (s / 10) (e + 1)%Z
  end.

(** The Number value of an integer literal of the source. *)
Definition num (z : Z) : number :=
  let s := Z.abs_N z in
  if s =? 0 then Finite false 0 0
  else let (s', e') := strip10 (N.to_nat (N.size s)) s 0%Z in
       Finite (z <? 0)%Z s' e'.

(** Exceptions, and the completion of a statement that may throw. *)
Inductive exn :=
| SyntaxError
| Error (message : jsstring).

Inductive completion (A : Type) :=
| Normal (a : A)
| Throw (e : exn).
Arguments Normal {A} a.
Arguments Throw {A} e.

(** [try { body } catch (error) { handler }] *)
Definition try_catch {A} (body : completion A) (handler : exn -> completion A)
  : completion A :=
  match body with
  | Normal a => Normal a
  | Throw e => handler e
  end.

(** Sequencing: an exception ends the statements that follow. *)
Definition bind {A B} (c : completion A) (k : A -> completion B)
  : completion B :=
  match c with
  | Normal a => k a
  | Throw e => Throw e
  end.

End Js.
Import Js.

(* ================================================================== *)
(** ** JSON text: [JSON.stringify] and [JSON.parse] *)

Module JSON.

(** Characters are written by their codes where a literal would need a
    quote: 34 is the double quote, 92 the backslash; among the others
    used below, 44 [,]  45 [-]  46 [.]  48 to 57 the digits  58 [:]
    69 [E]  91 and 93 the brackets  101 [e]  123 and 125 the braces. *)

(** The values JSON text denotes.  An object keeps its members in the
    order of the text. *)
Inductive value :=
| JNull
| JBool (b : bool)
| JNum (x : number)
| JStr (s : jsstring)
| JArr (elements : list value)
| JObj (members : list (jsstring * value)).

(** Property read [o[k]]: of several members with one key the last one
    stays, as repeated definition of the property leaves it. *)
Fixpoint get (k : jsstring) (members : list (jsstring * value)) : option value :=
  match members with
  | [] => None
  | (k', v) :: rest =>
      match get k rest with
      | Some v' => Some v'
      | None => if str_eqb k k' then Some v else None
      end
  end.

(** *** Numbers *)

Definition is_digit (c : char16) : bool := (48 <=? c) && (c <=? 57).

(** Decimal digits of [n], least significant first. *)
Fixpoint digits_le (fuel : nat) (n : N) : list char16 :=
  match fuel with
  | O => []
  | S f => if n =? 0 then [] else (48 + n mod 10) :: digits_le f (n / 10)
  end.

(** Decimal digits of a positive [n], most significant first. *)
Definition digits (n : N) : list char16 :=
  rev (digits_le (N.to_nat (N.size n)) n).

Definition decimal (n : N) : jsstring :=
  if n =? 0 then [48] else digits n.

Definition of_digits (ds : list char16) : N :=
  fold_left (fun acc c => 10 * acc + (c - 48)) ds 0.

(** [Number::toString(x)] in radix 10. *)
Definition NumberToString (x : number) : jsstring :=
  match x with
  | NaN => u "NaN"
  | Infinity false => u "Infinity"
  | Infinity true => u "-Infinity"
  | Finite neg s e =>
      if s =? 0 then u "0"
      else
        let ds := digits s in
        let k := Z.of_nat (length ds) in
        let n := (e + k)%Z in
        (if neg then u "-" else []) ++
        (if (k <=? n)%Z && (n <=? 21)%Z then
           ds ++ repeat 48 (Z.to_nat (n - k))
         else if (0 <? n)%Z && (n <=? 21)%Z then
           firstn (Z.to_nat n) ds ++ u "." ++ skipn (Z.to_nat n) ds
         else if (-6 <? n)%Z && (n <=? 0)%Z then
           u "0." ++ repeat 48 (Z.to_nat (- n)) ++ ds
         else
           let p := (n - 1)%Z in
           let exp := u "e" ++ (if (p <? 0)%Z then u "-" else u "+")
                        ++ decimal (Z.abs_N p) in
           match ds with
           | [] => []
           | [d] => d :: exp
           | d :: rest => d :: u "." ++ rest ++ exp
           end)
  end.

Definition is_finite (x : number) : bool :=
  match x with Finite _ _ _ => true | _ => false end.

(** *** Strings: [QuoteJSONString] *)

Definition is_high_surrogate (c : char16) : bool := (0xD800 <=? c) && (c <=? 0xDBFF).
Definition is_low_surrogate (c : char16) : bool := (0xDC00 <=? c) && (c <=? 0xDFFF).

Definition hex_digit (n : N) : char16 := if n <? 10 then 48 + n else 87 + n.

Definition unicode_escape (c : char16) : jsstring :=
  u "\u" ++ [hex_digit (c / 4096 mod 16); hex_digit (c / 256 mod 16);
             hex_digit (c / 16 mod 16); hex_digit (c mod 16)].

Definition quote_unit (c : char16) : jsstring :=
  if c =? 8 then u "\b"
  else if c =? 9 then u "\t"
  else if c =? 10 then u "\n"
  else if c =? 12 then u "\f"
  else if c =? 13 then u "\r"
  else if c =? 34 then [92; 34]
  else if c =? 92 then u "\\"
  else if c <? 32 then unicode_escape c
  else [c].

Fixpoint quote_body (s : jsstring) : jsstring :=
  match s with
  | [] => []
  | c :: r =>
      if is_high_surrogate c then
        match r with
        | d :: r' =>
            if is_low_surrogate d then c :: d :: quote_body r'
            else unicode_escape c ++ quote_body r
        | [] => unicode_escape c
        end
      else if is_low_surrogate c then unicode_escape c ++ quote_body r
      else quote_unit c ++ quote_body r
  end.

Definition QuoteJSONString (s : jsstring) : jsstring :=
  [34] ++ quote_body s ++ [34].

(** *** [JSON.stringify(v)], without indentation *)

(** The texts of the elements of an array, or of the members of an object,
    with a comma between each two. *)
Fixpoint join (texts : list jsstring) : jsstring :=
  match texts with
  | [] => []
  | [t] => t
  | t :: rest => t ++ u "," ++ join rest
  end.

Fixpoint stringify (v : value) : jsstring :=
  match v with
  | JNull => u "null"
  | JBool true => u "true"
  | JBool false => u "false"
  | JNum x => if is_finite x then NumberToString x else u "null"
  | JStr s => QuoteJSONString s
  | JArr vs => u "[" ++ join (map stringify vs) ++ u "]"
  | JObj ms =>
      u "{" ++
      join (map (fun m : jsstring * value =>
                   let (k, v) := m in
                   QuoteJSONString k ++ u ":" ++ stringify v) ms) ++
      u "}"
  end.

(** *** [JSON.parse(text)] *)

Definition is_ws (c : char16) : bool :=
  (c =? 32) || (c =? 9) || (c =? 10) || (c =? 13).

Fixpoint skip_ws (s : jsstring) : jsstring :=
  match s with
  | c :: r => if is_ws c then skip_ws r else s
  | [] => []
  end.

Fixpoint strip_prefix (p s : jsstring) : option jsstring :=
  match p, s with
  | [], _ => Some s
  | x :: p', y :: s' => if x =? y then strip_prefix p' s' else None
  | _ :: _, [] => None
  end.

(** The longest run of decimal digits at the head of [s], and what follows. *)
Fixpoint span_digits (s : jsstring) : list char16 * jsstring :=
  match s with
  | c :: r =>
      if is_digit c then let (ds, rest) := span_digits r in (c :: ds, rest)
      else ([], s)
  | [] => ([], [])
  end.

(** [ds] without its trailing zeros, and how many there were. *)
Fixpoint strip_zeros_le (ds : list char16) : list char16 * nat :=
  match ds with
  | c :: r => if c =? 48 then let (r', t) := strip_zeros_le r in (r', S t)
              else (ds, O)
  | [] => ([], O)
  end.

Definition strip_trailing_zeros (ds : list char16) : list char16 * nat :=
  let (r, t) := strip_zeros_le (rev ds) in (rev r, t).

(** The Number a literal [-? int (. frac)? (e exp)?] denotes. *)
Definition number_of_literal (neg : bool) (int frac : list char16) (exp : Z)
  : number :=
  let (sig, t) := strip_trailing_zeros (int ++ frac) in
  let s := of_digits sig in
  if s =? 0 then Finite neg 0 0
  else Finite neg s (exp - Z.of_nat (length frac) + Z.of_nat t).

Definition parse_frac (s : jsstring) : option (list char16 * jsstring) :=
  match s with
  | c :: r =>
      if c =? 46 then
        match span_digits r with
        | ([], _) => None
        | (ds, rest) => Some (ds, rest)
        end
      else Some ([], s)
  | [] => Some ([], [])
  end.

Definition parse_exp (s : jsstring) : option (Z * jsstring) :=
  match s with
  | c :: r =>
      if (c =? 101) || (c =? 69) then
        let (neg, r1) :=
          match r with
          | d :: r' => if d =? 45 then (true, r')
                       else if d =? 43 then (false, r') else (false, r)
          | [] => (false, r)
          end in
        match span_digits r1 with
        | ([], _) => None
        | (ds, rest) =>
            let x := Z.of_N (of_digits ds) in
            Some (if neg then (- x)%Z else x, rest)
        end
      else Some (0%Z, s)
  | [] => Some (0%Z, [])
  end.

(** The literal after its sign. *)
Definition parse_unsigned (neg : bool) (s : jsstring)
  : option (number * jsstring) :=
  match s with
  | c :: r =>
      if is_digit c then
        let (int, s2) := if c =? 48 then ([48], r) else span_digits s in
        match parse_frac s2 with
        | Some (frac, s3) =>
            match parse_exp s3 with
            | Some (exp, s4) => Some (number_of_literal neg int frac exp, s4)
            | None => None
            end
        | None => None
        end
      else None
  | [] => None
  end.

Definition parse_number (s : jsstring) : option (number * jsstring) :=
  match s with
  | c :: r => if c =? 45 then parse_unsigned true r else parse_unsigned false s
  | [] => None
  end.

Definition hex_value (c : char16) : option N :=
  if is_digit c then Some (c - 48)
  else if (97 <=? c) && (c <=? 102) then Some (c - 87)
  else if (65 <=? c) && (c <=? 70) then Some (c - 55)
  else None.

Definition hex4 (h1 h2 h3 h4 : char16) : option char16 :=
  match hex_value h1, hex_value h2, hex_value h3, hex_value h4 with
  | Some a, Some b, Some c, Some d => Some (a * 4096 + b * 256 + c * 16 + d)
  | _, _, _, _ => None
  end.

(** The character a two-character escape [\e] stands for. *)
Definition unescape (e : char16) : option char16 :=
  if e =? 34 then Some 34
  else if e =? 92 then Some 92
  else if e =? 47 then Some 47
  else if e =? 98 then Some 8
  else if e =? 102 then Some 12
  else if e =? 110 then Some 10
  else if e =? 114 then Some 13
  else if e =? 116 then Some 9
  else None.

(** The characters of a string literal after its opening quote, up to
    and including the closing quote. *)
Fixpoint parse_string_chars (s : jsstring) : option (jsstring * jsstring) :=
  match s with
  | [] => None
  | c :: r =>
      if c =? 34 then Some ([], r)
      else if c =? 92 then
        match r with
        | [] => None
        | e :: r1 =>
            if e =? 117 then
              match r1 with
              | h1 :: h2 :: h3 :: h4 :: r2 =>
                  match hex4 h1 h2 h3 h4 with
                  | Some c' =>
                      match parse_string_chars r2 with
                      | Some (str, rest) => Some (c' :: str, rest)
                      | None => None
                      end
                  | None => None
                  end
              | _ => None
              end
            else
              match unescape e with
              | Some c' =>
                  match parse_string_chars r1 with
                  | Some (str, rest) => Some (c' :: str, rest)
                  | None => None
                  end
              | None => None
              end
        end
      else if c <? 32 then None
      else
        match parse_string_chars r with
        | Some (str, rest) => Some (c :: str, rest)
        | None => None
        end
  end.

(** Recursive descent over the text; [fuel] bounds the number of nested
    calls, and [parse] below supplies more than any text can use. *)
Fixpoint parse_value (fuel : nat) (s : jsstring) : option (value * jsstring) :=
  match fuel with
  | O => None
  | S f =>
      match skip_ws s with
      | [] => None
      | c :: r =>
          if c =? 123 then
            match skip_ws r with
            | d :: r' =>
                if d =? 125 then Some (JObj [], r')
                else
                  match parse_members f (d :: r') with
                  | Some (ms, rest) => Some (JObj ms, rest)
                  | None => None
                  end
            | [] => None
            end
          else if c =? 91 then
            match skip_ws r with
            | d :: r' =>
                if d =? 93 then Some (JArr [], r')
                else
                  match parse_elements f (d :: r') with
                  | Some (vs, rest) => Some (JArr vs, rest)
                  | None => None
                  end
            | [] => None
            end
          else if c =? 34 then
            match parse_string_chars r with
            | Some (str, rest) => Some (JStr str, rest)
            | None => None
            end
          else if c =? 116 then
            match strip_prefix (u "rue") r with
            | Some rest => Some (JBool true, rest)
            | None => None
            end
          else if c =? 102 then
            match strip_prefix (u "alse") r with
            | Some rest => Some (JBool false, rest)
            | None => None
            end
          else if c =? 110 then
            match strip_prefix (u "ull") r with
            | Some rest => Some (JNull, rest)
            | None => None
            end
          else
            match parse_number (c :: r) with
            | Some (x, rest) => Some (JNum x, rest)
            | None => None
            end
      end
  end

(** [value (, value)* ]] *)
with parse_elements (fuel : nat) (s : jsstring)
  : option (list value * jsstring) :=
  match fuel with
  | O => None
  | S f =>
      match parse_value f s with
      | Some (v, r) =>
          match skip_ws r with
          | c :: r' =>
              if c =? 44 then
                match parse_elements f r' with
                | Some (vs, rest) => Some (v :: vs, rest)
                | None => None
                end
              else if c =? 93 then Some ([v], r')
              else None
          | [] => None
          end
      | None => None
      end
  end

(** [string : value (, string : value)* }] *)
with parse_members (fuel : nat) (s : jsstring)
  : option (list (jsstring * value) * jsstring) :=
  match fuel with
  | O => None
  | S f =>
      match skip_ws s with
      | q :: r0 =>
          if q =? 34 then
            match parse_string_chars r0 with
            | Some (k, r1) =>
                match skip_ws r1 with
                | c :: r2 =>
                    if c =? 58 then
                      match parse_value f r2 with
                      | Some (v, r3) =>
                          match skip_ws r3 with
                          | d :: r4 =>
                              if d =? 44 then
                                match parse_members f r4 with
                                | Some (ms, rest) => Some ((k, v) :: ms, rest)
                                | None => None
                                end
                              else if d =? 125 then Some ([(k, v)], r4)
                              else None
                          | [] => None
                          end
                      | None => None
                      end
                    else None
                | [] => None
                end
            | None => None
            end
          else None
      | [] => None
      end
  end.

Definition fuel_for (s : jsstring) : nat := S (2 * length s).

(** [JSON.parse(text)]: the value of the text, or a thrown [SyntaxError]
    when the text is not JSON. *)
Definition parse (s : jsstring) : completion value :=
  match parse_value (fuel_for s) s with
  | Some (v, rest) =>
      match skip_ws rest with
      | [] => Normal v
      | _ :: _ => Throw SyntaxError
      end
  | None => Throw SyntaxError
  end.

End JSON.
Import JSON.

(* ================================================================== *)
(** ** [src/contexts/user-context.tsx] *)

Module UserContext.

(** *** [interface UserProfile] and its element types *)

Module Medication.
Record t := {
  id : jsstring;
  name : jsstring;
  dosage : jsstring;
  frequency : jsstring;
  startDate : jsstring;
  endDate : option jsstring;      (* endDate?: string *)
  instructions : jsstring }.
End Medication.

Module HealthGoal.
Record t := {
  id : jsstring;
  type : jsstring;
  target : number;
  current : number;
  unit : jsstring }.
End HealthGoal.

(** [Partial<UserProfile["healthGoals"][0]>]: [Some v] for a property the
    object has, [None] for one it lacks. *)
Module PartialHealthGoal.
Record t := {
  id : option jsstring;
  type : option jsstring;
  target : option number;
  current : option number;
  unit : option jsstring }.
End PartialHealthGoal.

Module VitalSign.
Record t := {
  id : jsstring;
  type : jsstring;
  value : number;
  unit : jsstring;
  date : jsstring;
  time : jsstring }.
End VitalSign.

Module Appointment.
Record t := {
  id : jsstring;
  doctorName : jsstring;
  specialty : jsstring;
  date : jsstring;
  time : jsstring;
  type : jsstring;
  status : jsstring;
  notes : option jsstring }.      (* notes?: string *)
End Appointment.

Record UserProfile := {
  firstName : jsstring;
  lastName : jsstring;
  email : jsstring;
  phone : jsstring;
  dateOfBirth : jsstring;
  gender : jsstring;
  address : jsstring;
  emergencyContact : jsstring;
  medicalConditions : jsstring;
  allergies : jsstring;
  bloodType : jsstring;
  height : jsstring;
  weight : jsstring;
  language : jsstring;
  notifications : bool;
  currentMedications : list Medication.t;
  healthGoals : list HealthGoal.t;
  vitalSigns : list VitalSign.t;
  appointments : list Appointment.t }.

(** [Partial<UserProfile>] *)
Module Partial.
Record t := {
  firstName : option jsstring;
  lastName : option jsstring;
  email : option jsstring;
  phone : option jsstring;
  dateOfBirth : option jsstring;
  gender : option jsstring;
  address : option jsstring;
  emergencyContact : option jsstring;
  medicalConditions : option jsstring;
  allergies : option jsstring;
  bloodType : option jsstring;
  height : option jsstring;
  weight : option jsstring;
  language : option jsstring;
  notifications : option bool;
  currentMedications : option (list Medication.t);
  healthGoals : option (list HealthGoal.t);
  vitalSigns : option (list VitalSign.t);
  appointments : option (list Appointment.t) }.

(** The object literal [{}]. *)
Definition empty : t :=
  Build_t None None None None None None None None None None
          None None None None None None None None None.
End Partial.

(** *** [const defaultUser] *)

Definition defaultUser : UserProfile := {|
  firstName := u "Alex";
  lastName := u "Johnson";
  email := u "alex.johnson@email.com";
  phone := u "+1 (555) 123-4567";
  dateOfBirth := u "1990-05-15";
  gender := u "male";
  address := u "123 Health St, Wellness City, WC 12345";
  emergencyContact := u "Jane Johnson - +1 (555) 987-6543";
  medicalConditions := u "Hypertension, Type 2 Diabetes";
  allergies := u "Penicillin, Shellfish";
  bloodType := u "A+";
  height := u "5'10" ++ [34];
  weight := u "175 lbs";
  language := u "en";
  notifications := true;
  currentMedications := [
    {| Medication.id := u "1";
       Medication.name := u "Lisinopril";
       Medication.dosage := u "10mg";
       Medication.frequency := u "Once daily";
       Medication.startDate := u "2024-01-15";
       Medication.endDate := None;
       Medication.instructions := u "Take with food in the morning" |};
    {| Medication.id := u "2";
       Medication.name := u "Metformin";
       Medication.dosage := u "500mg";
       Medication.frequency := u "Twice daily";
       Medication.startDate := u "2024-01-15";
       Medication.endDate := None;
       Medication.instructions := u "Take with meals" |} ];
  healthGoals := [
    HealthGoal.Build_t (u "1") (u "water") (num 8) (num 5) (u "glasses");
    HealthGoal.Build_t (u "2") (u "steps") (num 10000) (num 7500) (u "steps");
    HealthGoal.Build_t (u "3") (u "weight") (num 170) (num 175) (u "lbs") ];
  vitalSigns := [
    VitalSign.Build_t (u "1") (u "blood_pressure") (num 125) (u "mmHg")
                      (u "2024-01-20") (u "08:00");
    VitalSign.Build_t (u "2") (u "heart_rate") (num 72) (u "bpm")
                      (u "2024-01-20") (u "08:00");
    VitalSign.Build_t (u "3") (u "blood_sugar") (num 110) (u "mg/dL")
                      (u "2024-01-20") (u "08:00") ];
  appointments := [
    {| Appointment.id := u "1";
       Appointment.doctorName := u "Dr. Sarah Wilson";
       Appointment.specialty := u "Cardiologist";
       Appointment.date := u "2024-01-25";
       Appointment.time := u "10:00 AM";
       Appointment.type := u "Follow-up";
       Appointment.status := u "scheduled";
       Appointment.notes := None |} ]
|}.

(** *** A profile as the object it is

    The record above is the typed view of a plain JavaScript object.
    [JSON.stringify] walks that object and [JSON.parse] builds one; the
    two functions below give the object of a record (properties in the
    order of the interface, an absent optional property left out) and
    the record of an object (properties read by key). *)

#[local] Notation "x <- e ;; k" :=
  (match e with Some x => k | None => None end)
  (at level 60, e at next level, right associativity, only parsing).

Definition opt_member (k : jsstring) (o : option jsstring)
  : list (jsstring * value) :=
  match o with Some s => [(k, JStr s)] | None => [] end.

Definition get_string (k : jsstring) (ms : list (jsstring * value))
  : option jsstring :=
  match get k ms with Some (JStr s) => Some s | _ => None end.

Definition get_opt_string (k : jsstring) (ms : list (jsstring * value))
  : option (option jsstring) :=
  match get k ms with
  | None => Some None
  | Some (JStr s) => Some (Some s)
  | Some _ => None
  end.

Definition get_number (k : jsstring) (ms : list (jsstring * value))
  : option number :=
  match get k ms with Some (JNum x) => Some x | _ => None end.

Definition get_bool (k : jsstring) (ms : list (jsstring * value))
  : option bool :=
  match get k ms with Some (JBool b) => Some b | _ => None end.

Fixpoint all_some {A B} (f : A -> option B) (l : list A) : option (list B) :=
  match l with
  | [] => Some []
  | a :: r => b <- f a ;; bs <- all_some f r ;; Some (b :: bs)
  end.

Definition get_array {B} (f : value -> option B) (k : jsstring)
           (ms : list (jsstring * value)) : option (list B) :=
  match get k ms with Some (JArr vs) => all_some f vs | _ => None end.

Definition Medication_object (m : Medication.t) : value :=
  JObj ([ (u "id", JStr (Medication.id m));
          (u "name", JStr (Medication.name m));
          (u "dosage", JStr (Medication.dosage m));
          (u "frequency", JStr (Medication.frequency m));
          (u "startDate", JStr (Medication.startDate m)) ]
        ++ opt_member (u "endDate") (Medication.endDate m)
        ++ [ (u "instructions", JStr (Medication.instructions m)) ]).

Definition Medication_of (v : value) : option Medication.t :=
  match v with
  | JObj ms =>
      a <- get_string (u "id") ms ;;
      b <- get_string (u "name") ms ;;
      c <- get_string (u "dosage") ms ;;
      d <- get_string (u "frequency") ms ;;
      e <- get_string (u "startDate") ms ;;
      f <- get_opt_string (u "endDate") ms ;;
      g <- get_string (u "instructions") ms ;;
      Some (Medication.Build_t a b c d e f g)
  | _ => None
  end.

Definition HealthGoal_object (g : HealthGoal.t) : value :=
  JObj [ (u "id", JStr (HealthGoal.id g));
         (u "type", JStr (HealthGoal.type g));
         (u "target", JNum (HealthGoal.target g));
         (u "current", JNum (HealthGoal.current g));
         (u "unit", JStr (HealthGoal.unit g)) ].

Definition HealthGoal_of (v : value) : option HealthGoal.t :=
  match v with
  | JObj ms =>
      a <- get_string (u "id") ms ;;
      b <- get_string (u "type") ms ;;
      c <- get_number (u "target") ms ;;
      d <- get_number (u "current") ms ;;
      e <- get_string (u "unit") ms ;;
      Some (HealthGoal.Build_t a b c d e)
  | _ => None
  end.

Definition VitalSign_object (s : VitalSign.t) : value :=
  JObj [ (u "id", JStr (VitalSign.id s));
         (u "type", JStr (VitalSign.type s));
         (u "value", JNum (VitalSign.value s));
         (u "unit", JStr (VitalSign.unit s));
         (u "date", JStr (VitalSign.date s));
         (u "time", JStr (VitalSign.time s)) ].

Definition VitalSign_of (v : value) : option VitalSign.t :=
  match v with
  | JObj ms =>
      a <- get_string (u "id") ms ;;
      b <- get_string (u "type") ms ;;
      c <- get_number (u "value") ms ;;
      d <- get_string (u "unit") ms ;;
      e <- get_string (u "date") ms ;;
      f <- get_string (u "time") ms ;;
      Some (VitalSign.Build_t a b c d e f)
  | _ => None
  end.

Definition Appointment_object (a : Appointment.t) : value :=
  JObj ([ (u "id", JStr (Appointment.id a));
          (u "doctorName", JStr (Appointment.doctorName a));
          (u "specialty", JStr (Appointment.specialty a));
          (u "date", JStr (Appointment.date a));
          (u "time", JStr (Appointment.time a));
          (u "type", JStr (Appointment.type a));
          (u "status", JStr (Appointment.status a)) ]
        ++ opt_member (u "notes") (Appointment.notes a)).

Definition Appointment_of (v : value) : option Appointment.t :=
  match v with
  | JObj ms =>
      a <- get_string (u "id") ms ;;
      b <- get_string (u "doctorName") ms ;;
      c <- get_string (u "specialty") ms ;;
      d <- get_string (u "date") ms ;;
      e <- get_string (u "time") ms ;;
      f <- get_string (u "type") ms ;;
      g <- get_string (u "status") ms ;;
      h <- get_opt_string (u "notes") ms ;;
      Some (Appointment.Build_t a b c d e f g h)
  | _ => None
  end.

Definition UserProfile_object (p : UserProfile) : value :=
  JObj [ (u "firstName", JStr (firstName p));
         (u "lastName", JStr (lastName p));
         (u "email", JStr (email p));
         (u "phone", JStr (phone p));
         (u "dateOfBirth", JStr (dateOfBirth p));
         (u "gender", JStr (gender p));
         (u "address", JStr (address p));
         (u "emergencyContact", JStr (emergencyContact p));
         (u "medicalConditions", JStr (medicalConditions p));
         (u "allergies", JStr (allergies p));
         (u "bloodType", JStr (bloodType p));
         (u "height", JStr (height p));
         (u "weight", JStr (weight p));
         (u "language", JStr (language p));
         (u "notifications", JBool (notifications p));
         (u "currentMedications",
           JArr (map Medication_object (currentMedications p)));
         (u "healthGoals", JArr (map HealthGoal_object (healthGoals p)));
         (u "vitalSigns", JArr (map VitalSign_object (vitalSigns p)));
         (u "appointments", JArr (map Appointment_object (appointments p))) ].

Definition UserProfile_of (v : value) : option UserProfile :=
  match v with
  | JObj ms =>
      f1 <- get_string (u "firstName") ms ;;
      f2 <- get_string (u "lastName") ms ;;
      f3 <- get_string (u "email") ms ;;
      f4 <- get_string (u "phone") ms ;;
      f5 <- get_string (u "dateOfBirth") ms ;;
      f6 <- get_string (u "gender") ms ;;
      f7 <- get_string (u "address") ms ;;
      f8 <- get_string (u "emergencyContact") ms ;;
      f9 <- get_string (u "medicalConditions") ms ;;
      f10 <- get_string (u "allergies") ms ;;
      f11 <- get_string (u "bloodType") ms ;;
      f12 <- get_string (u "height") ms ;;
      f13 <- get_string (u "weight") ms ;;
      f14 <- get_string (u "language") ms ;;
      f15 <- get_bool (u "notifications") ms ;;
      f16 <- get_array Medication_of (u "currentMedications") ms ;;
      f17 <- get_array HealthGoal_of (u "healthGoals") ms ;;
      f18 <- get_array VitalSign_of (u "vitalSigns") ms ;;
      f19 <- get_array Appointment_of (u "appointments") ms ;;
      Some (Build_UserProfile f1 f2 f3 f4 f5 f6 f7 f8 f9 f10 f11 f12 f13
                              f14 f15 f16 f17 f18 f19)
  | _ => None
  end.

(** *** The state of [UserProvider] and its surroundings *)

(** What the [user] state holds at run time.  It is declared
    [UserProfile | null], but [setUser(JSON.parse(savedUser))] stores
    whatever the text denotes, unchecked: a value that is neither [null]
    nor of the profile's shape is kept as it is. *)
Inductive UserValue :=
| Null
| Profile (p : UserProfile)
| Foreign (v : value).

Definition asUser (v : value) : UserValue :=
  match v with
  | JNull => Null
  | _ => match UserProfile_of v with
         | Some p => Profile p
         | None => Foreign v
         end
  end.

(** [localStorage]: string keys to string values. *)
Definition Storage := list (jsstring * jsstring).

Fixpoint getItem (k : jsstring) (st : Storage) : option jsstring :=
  match st with
  | [] => None
  | (k', v) :: rest => if str_eqb k k' then Some v else getItem k rest
  end.

Fixpoint setItem (k v : jsstring) (st : Storage) : Storage :=
  match st with
  | [] => [(k, v)]
  | (k', v') :: rest =>
      if str_eqb k k' then (k, v) :: rest else (k', v') :: setItem k v rest
  end.

Record World := {
  user : UserValue;                          (* useState(null) *)
  isLoading : bool;                          (* useState(true) *)
  localStorage : Storage;
  console : list (jsstring * exn) }.         (* what console.error printed *)

Definition mount (st : Storage) : World :=
  {| user := Null; isLoading := true; localStorage := st; console := [] |}.

Definition setUser (x : UserValue) (w : World) : World :=
  {| user := x; isLoading := isLoading w;
     localStorage := localStorage w; console := console w |}.

Definition setIsLoading (b : bool) (w : World) : World :=
  {| user := user w; isLoading := b;
     localStorage := localStorage w; console := console w |}.

Definition console_error (msg : jsstring) (e : exn) (w : World) : World :=
  {| user := user w; isLoading := isLoading w;
     localStorage := localStorage w; console := console w ++ [(msg, e)] |}.

Definition localStorage_setItem (k v : jsstring) (w : World) : World :=
  {| user := user w; isLoading := isLoading w;
     localStorage := setItem k v (localStorage w); console := console w |}.

Definition STORAGE_KEY : jsstring := u "healthTracker_user".

(** Truthiness of [string | null] and of the user state. *)
Definition truthy_string (s : option jsstring) : bool :=
  match s with
  | Some (_ :: _) => true
  | _ => false
  end.

Definition truthy (x : UserValue) : bool :=
  match x with
  | Null => false
  | Profile _ => true
  | Foreign JNull => false
  | Foreign (JBool b) => b
  | Foreign (JNum (Finite _ s _)) => negb (s =? 0)
  | Foreign (JNum NaN) => false
  | Foreign (JNum (Infinity _)) => true
  | Foreign (JStr s) => match s with [] => false | _ => true end
  | Foreign (JArr _) => true
  | Foreign (JObj _) => true
  end.



(** The first effect: load user data from [localStorage]. *)
Definition loadEffect (w : World) : completion World :=
  let savedUser := getItem STORAGE_KEY (localStorage w) in
  bind
    (match savedUser with
     | Some text =>
         if truthy_string savedUser then
           try_catch
             (bind (JSON.parse text) (fun v => Normal (setUser (asUser v) w)))
             (fun error =>
                Normal (setUser (Profile defaultUser)
                          (console_error (u "Error loading user data:") error w)))
         else Normal (setUser (Profile defaultUser) w)
     | None => Normal (setUser (Profile defaultUser) w)
     end)
    (fun w' => Normal (setIsLoading false w')).

(** [JSON.stringify(user)] *)
Definition stringify_user (x : UserValue) : jsstring :=
  match x with
  | Null => JSON.stringify JNull
  | Profile p => JSON.stringify (UserProfile_object p)
  | Foreign v => JSON.stringify v
  end.

(** The second effect: save user data to [localStorage] whenever it
    changes. *)
Definition saveEffect (w : World) : World :=
  if truthy (user w) && negb (isLoading w) then
    localStorage_setItem STORAGE_KEY (stringify_user (user w)) w
  else w.

(** *** The six operations

    Each hands [setUser] an updater of the state at its declared type
    [UserProfile | null]; the updater is what is defined here. *)

(** A property of [{ ...prev, ...updates }]: the value [updates] gives it
    when it has the property, the value of [prev] otherwise. *)
Definition spread {A} (prev : A) (upd : option A) : A :=
  match upd with Some v => v | None => prev end.

Definition updateUser (updates : Partial.t) (prev : option UserProfile)
  : option UserProfile :=
  match prev with
  | Some prev =>
      Some {|
        firstName := spread (firstName prev) (Partial.firstName updates);
        lastName := spread (lastName prev) (Partial.lastName updates);
        email := spread (email prev) (Partial.email updates);
        phone := spread (phone prev) (Partial.phone updates);
        dateOfBirth := spread (dateOfBirth prev) (Partial.dateOfBirth updates);
        gender := spread (gender prev) (Partial.gender updates);
        address := spread (address prev) (Partial.address updates);
        emergencyContact :=
          spread (emergencyContact prev) (Partial.emergencyContact updates);
        medicalConditions :=
          spread (medicalConditions prev) (Partial.medicalConditions updates);
        allergies := spread (allergies prev) (Partial.allergies updates);
        bloodType := spread (bloodType prev) (Partial.bloodType updates);
        height := spread (height prev) (Partial.height updates);
        weight := spread (weight prev) (Partial.weight updates);
        language := spread (language prev) (Partial.language updates);
        notifications := spread (notifications prev) (Partial.notifications updates);
        currentMedications :=
          spread (currentMedications prev) (Partial.currentMedications updates);
        healthGoals := spread (healthGoals prev) (Partial.healthGoals updates);
        vitalSigns := spread (vitalSigns prev) (Partial.vitalSigns updates);
        appointments := spread (appointments prev) (Partial.appointments updates)
      |}
  | None => None
  end.

(** [{ ...prev, currentMedications: ms }] and its three siblings. *)
Definition with_currentMedications (ms : list Medication.t) (prev : UserProfile)
  : UserProfile :=
  Build_UserProfile
    (firstName prev) (lastName prev) (email prev) (phone prev)
    (dateOfBirth prev) (gender prev) (address prev) (emergencyContact prev)
    (medicalConditions prev) (allergies prev) (bloodType prev) (height prev)
    (weight prev) (language prev) (notifications prev)
    ms (healthGoals prev) (vitalSigns prev) (appointments prev).

Definition with_healthGoals (gs : list HealthGoal.t) (prev : UserProfile)
  : UserProfile :=
  Build_UserProfile
    (firstName prev) (lastName prev) (email prev) (phone prev)
    (dateOfBirth prev) (gender prev) (address prev) (emergencyContact prev)
    (medicalConditions prev) (allergies prev) (bloodType prev) (height prev)
    (weight prev) (language prev) (notifications prev)
    (currentMedications prev) gs (vitalSigns prev) (appointments prev).

Definition with_vitalSigns (vs : list VitalSign.t) (prev : UserProfile)
  : UserProfile :=
  Build_UserProfile
    (firstName prev) (lastName prev) (email prev) (phone prev)
    (dateOfBirth prev) (gender prev) (address prev) (emergencyContact prev)
    (medicalConditions prev) (allergies prev) (bloodType prev) (height prev)
    (weight prev) (language prev) (notifications prev)
    (currentMedications prev) (healthGoals prev) vs (appointments prev).

Definition with_appointments (aps : list Appointment.t) (prev : UserProfile)
  : UserProfile :=
  Build_UserProfile
    (firstName prev) (lastName prev) (email prev) (phone prev)
    (dateOfBirth prev) (gender prev) (address prev) (emergencyContact prev)
    (medicalConditions prev) (allergies prev) (bloodType prev) (height prev)
    (weight prev) (language prev) (notifications prev)
    (currentMedications prev) (healthGoals prev) (vitalSigns prev) aps.

Definition addMedication (medication : Medication.t)
           (prev : option UserProfile) : option UserProfile :=
  match prev with
  | Some prev =>
      Some (with_currentMedications
              (currentMedications prev ++ [medication]) prev)
  | None => None
  end.

Definition removeMedication (medicationId : jsstring)
           (prev : option UserProfile) : option UserProfile :=
  match prev with
  | Some prev =>
      Some (with_currentMedications
              (filter (fun med => negb (str_eqb (Medication.id med) medicationId))
                      (currentMedications prev))
              prev)
  | None => None
  end.

Definition addVitalSign (vitalSign : VitalSign.t)
           (prev : option UserProfile) : option UserProfile :=
  match prev with
  | Some prev =>
      Some (with_vitalSigns (vitalSigns prev ++ [vitalSign]) prev)
  | None => None
  end.

Definition addAppointment (appointment : Appointment.t)
           (prev : option UserProfile) : option UserProfile :=
  match prev with
  | Some prev =>
      Some (with_appointments (appointments prev ++ [appointment]) prev)
  | None => None
  end.

(** [{ ...goal, ...updates }] *)
Definition patch_goal (goal : HealthGoal.t) (updates : PartialHealthGoal.t)
  : HealthGoal.t :=
  {| HealthGoal.id := spread (HealthGoal.id goal) (PartialHealthGoal.id updates);
     HealthGoal.type := spread (HealthGoal.type goal) (PartialHealthGoal.type updates);
     HealthGoal.target :=
       spread (HealthGoal.target goal) (PartialHealthGoal.target updates);
     HealthGoal.current :=
       spread (HealthGoal.current goal) (PartialHealthGoal.current updates);
     HealthGoal.unit := spread (HealthGoal.unit goal) (PartialHealthGoal.unit updates)
  |}.

Definition updateHealthGoal (goalId : jsstring) (updates : PartialHealthGoal.t)
           (prev : option UserProfile) : option UserProfile :=
  match prev with
  | Some prev =>
      Some (with_healthGoals
              (map (fun goal =>
                      if str_eqb (HealthGoal.id goal) goalId
                      then patch_goal goal updates else goal)
                   (healthGoals prev))
              prev)
  | None => None
  end.

(** *** The context and [useUser] *)

(** [interface UserContextType]: the value the provider hands down. *)
Module Ctx.
Record t := {
  user : UserValue;
  updateUser : Partial.t -> option UserProfile -> option UserProfile;
  addMedication : Medication.t -> option UserProfile -> option UserProfile;
  removeMedication : jsstring -> option UserProfile -> option UserProfile;
  addVitalSign : VitalSign.t -> option UserProfile -> option UserProfile;
  addAppointment : Appointment.t -> option UserProfile -> option UserProfile;
  updateHealthGoal :
    jsstring -> PartialHealthGoal.t -> option UserProfile -> option UserProfile;
  isLoading : bool }.
End Ctx.

(** The [value] of [<UserContext.Provider>] rendered by [UserProvider]. *)
Definition provided (w : World) : Ctx.t :=
  {| Ctx.user := user w;
     Ctx.updateUser := updateUser;
     Ctx.addMedication := addMedication;
     Ctx.removeMedication := removeMedication;
     Ctx.addVitalSign := addVitalSign;
     Ctx.addAppointment := addAppointment;
     Ctx.updateHealthGoal := updateHealthGoal;
     Ctx.isLoading := isLoading w |}.

(** An element enclosing the component that calls the hook. *)
Inductive ancestor :=
| Provider (value : Ctx.t)       (* <UserContext.Provider value={...}> *)
| Element (tag : jsstring).      (* anything else *)

(** [useContext(UserContext)], innermost ancestor first: the value of the
    nearest provider, or the default given to [createContext], which is
    [undefined]. *)
Fixpoint useContext (ancestors : list ancestor) : option Ctx.t :=
  match ancestors with
  | [] => None
  | Provider v :: _ => Some v
  | Element _ :: outer => useContext outer
  end.

Definition useUser (ancestors : list ancestor) : completion Ctx.t :=
  match useContext ancestors with
  | None => Throw (Error (u "useUser must be used within a UserProvider"))
  | Some context => Normal context
  end.

End UserContext.
Import UserContext.

(* ================================================================== *)
(** ** Notions the properties are stated with *)

(** The nineteen properties of a profile, the type of each, and how to read
    one from a profile and from a partial profile. *)
Inductive field :=
| FirstName | LastName | Email | Phone | DateOfBirth | Gender | Address
| EmergencyContact | MedicalConditions | Allergies | BloodType | Height
| Weight | Language | Notifications
| CurrentMedications | HealthGoals | VitalSigns | Appointments.

Definition field_type (f : field) : Type :=
  match f with
  | Notifications => bool
  | CurrentMedications => list Medication.t
  | HealthGoals => list HealthGoal.t
  | VitalSigns => list VitalSign.t
  | Appointments => list Appointment.t
  | _ => jsstring
  end.

Definition read (f : field) (p : UserProfile) : field_type f :=
  match f with
  | FirstName => firstName p
  | LastName => lastName p
  | Email => email p
  | Phone => phone p
  | DateOfBirth => dateOfBirth p
  | Gender => gender p
  | Address => address p
  | EmergencyContact => emergencyContact p
  | MedicalConditions => medicalConditions p
  | Allergies => allergies p
  | BloodType => bloodType p
  | Height => height p
  | Weight => weight p
  | Language => language p
  | Notifications => notifications p
  | CurrentMedications => currentMedications p
  | HealthGoals => healthGoals p
  | VitalSigns => vitalSigns p
  | Appointments => appointments p
  end.

Definition named (f : field) (q : Partial.t) : option (field_type f) :=
  match f with
  | FirstName => Partial.firstName q
  | LastName => Partial.lastName q
  | Email => Partial.email q
  | Phone => Partial.phone q
  | DateOfBirth => Partial.dateOfBirth q
  | Gender => Partial.gender q
  | Address => Partial.address q
  | EmergencyContact => Partial.emergencyContact q
  | MedicalConditions => Partial.medicalConditions q
  | Allergies => Partial.allergies q
  | BloodType => Partial.bloodType q
  | Height => Partial.height q
  | Weight => Partial.weight q
  | Language => Partial.language q
  | Notifications => Partial.notifications q
  | CurrentMedications => Partial.currentMedications q
  | HealthGoals => Partial.healthGoals q
  | VitalSigns => Partial.vitalSigns q
  | Appointments => Partial.appointments q
  end.

(** [without id l l'] : [l'] is [l] with the medications of identifier [id]
    taken out and nothing else touched. *)
Inductive without (id : jsstring) : list Medication.t -> list Medication.t -> Prop :=
| without_nil : without id [] []
| without_drop m l l' :
    Medication.id m = id -> without id l l' -> without id (m :: l) l'
| without_keep m l l' :
    Medication.id m <> id -> without id l l' -> without id (m :: l) (m :: l').

(** [merged g q g'] : [g'] has every property the partial goal [q] names,
    with the value [q] gives it, and every other property as in [g]. *)
Definition merged (g : HealthGoal.t) (q : PartialHealthGoal.t) (g' : HealthGoal.t)
  : Prop :=
  HealthGoal.id g' =
    match PartialHealthGoal.id q with Some v => v | None => HealthGoal.id g end /\
  HealthGoal.type g' =
    match PartialHealthGoal.type q with Some v => v | None => HealthGoal.type g end /\
  HealthGoal.target g' =
    match PartialHealthGoal.target q with Some v => v | None => HealthGoal.target g end /\
  HealthGoal.current g' =
    match PartialHealthGoal.current q with Some v => v | None => HealthGoal.current g end /\
  HealthGoal.unit g' =
    match PartialHealthGoal.unit q with Some v => v | None => HealthGoal.unit g end.

(** No provider encloses the caller. *)
Definition outside_provider (ancestors : list ancestor) : Prop :=
  forall v, ~ In (Provider v) ancestors.

(** The first character of [s] satisfies [p]. *)
Definition starts_with (p : char16 -> bool) (s : jsstring) : bool :=
  match s with
  | c :: _ => p c
  | [] => false
  end.

(** A character that would continue a number literal. *)
Definition number_char (c : char16) : bool :=
  is_digit c || (c =? 46) || (c =? 101) || (c =? 69).

(** The numbers JSON text can carry: finite ones, negative zero apart. *)
Definition json_number (x : number) : Prop :=
  match x with
  | Finite neg s e => canonical x /\ (s = 0 -> neg = false)
  | _ => False
  end.

(** Values all of whose numbers JSON text can carry. *)
Fixpoint plain (v : value) : Prop :=
  match v with
  | JNum x => json_number x
  | JArr vs => fold_right (fun v P => plain v /\ P) True vs
  | JObj ms => fold_right (fun (m : jsstring * value) P => plain (snd m) /\ P) True ms
  | _ => True
  end.

(** A bound on the calls [parse_value] makes to read a value back. *)
Fixpoint size (v : value) : nat :=
  match v with
  | JArr vs => S (fold_right (fun v n => S (size v + n)) O vs)
  | JObj ms => S (fold_right (fun (m : jsstring * value) n => S (size (snd m) + n)) O ms)
  | _ => 1
  end.

Definition member_text (m : jsstring * value) : jsstring :=
  let (k, v) := m in QuoteJSONString k ++ u ":" ++ stringify v.

(** The profiles JSON text can carry: those whose numbers it can carry. *)
Definition valid_goal (g : HealthGoal.t) : Prop :=
  json_number (HealthGoal.target g) /\ json_number (HealthGoal.current g).

Definition valid_sign (s : VitalSign.t) : Prop :=
  json_number (VitalSign.value s).

Definition valid_profile (p : UserProfile) : Prop :=
  Forall valid_goal (healthGoals p) /\ Forall valid_sign (vitalSigns p).

(** What [saveEffect] stores for a profile, and what [loadEffect] makes of a
    stored text. *)
Definition serialize (p : UserProfile) : jsstring :=
  stringify_user (Profile p).

Definition deserialize (text : jsstring) : completion UserValue :=
  bind (JSON.parse text) (fun v => Normal (asUser v)).

(** A stored text that is not JSON: [JSON.parse] returns no value for it. *)
Definition corrupt (text : jsstring) : Prop :=
  forall v, JSON.parse text <> Normal v.

(** Little-endian reading of a digit string. *)
Fixpoint value_le (l : list char16) : N :=
  match l with
  | [] => 0
  | c :: r => (c - 48) + 10 * value_le r
  end.

(* ================================================================== *)
(** ** Notions the proofs use *)

(** What [parse_unsigned] does once the integer part is known. *)
Definition after_int (neg : bool) (int tail : jsstring)
  : option (number * jsstring) :=
  match parse_frac tail with
  | Some (frac, s3) =>
      match parse_exp s3 with
      | Some (exp, s4) => Some (number_of_literal neg int frac exp, s4)
      | None => None
      end
  | None => None
  end.

(** [c] put in front of the string a parse returned. *)
Definition and_then (c : char16) (o : option (jsstring * jsstring))
  : option (jsstring * jsstring) :=
  match o with
  | Some (str, rest) => Some (c :: str, rest)
  | None => None
  end.

Section ValueInduction.

Variable P : value -> Prop.
Hypothesis PNull : P JNull.
Hypothesis PBool : forall b, P (JBool b).
Hypothesis PNum : forall x, P (JNum x).
Hypothesis PStr : forall s, P (JStr s).
Hypothesis PArr : forall vs, Forall P vs -> P (JArr vs).
Hypothesis PObj : forall ms, Forall (fun m => P (snd m)) ms -> P (JObj ms).

(** Induction on a value with its elements and members as premises. *)
Fixpoint value_rect_nested (v : value) : P v :=
  match v with
  | JNull => PNull
  | JBool b => PBool b
  | JNum x => PNum x
  | JStr s => PStr s
  | JArr vs =>
      PArr vs
        ((fix all (l : list value) : Forall P l :=
            match l with
            | [] => Forall_nil P
            | v :: r => Forall_cons v (value_rect_nested v) (all r)
            end) vs)
  | JObj ms =>
      PObj ms
        ((fix all (l : list (jsstring * value)) : Forall (fun m => P (snd m)) l :=
            match l with
            | [] => Forall_nil _
            | m :: r => Forall_cons m (value_rect_nested (snd m)) (all r)
            end) ms)
  end.

End ValueInduction.

(** [v] is read back from its text, whatever follows the text, by a parse
    allowed [size v] nested calls or more. *)
Definition reads_back (v : value) : Prop :=
  plain v ->
  forall (f : nat) (rest : jsstring),
    (size v <= f)%nat -> starts_with number_char rest = false ->
    parse_value f (stringify v ++ rest) = Some (v, rest).

(** One layer of each of the three mutually recursive parsers, the calls
    to the layer below given as arguments. *)
Definition value_step
           (pe : jsstring -> option (list value * jsstring))
           (pm : jsstring -> option (list (jsstring * value) * jsstring))
           (s : jsstring) : option (value * jsstring) :=
  match skip_ws s with
  | [] => None
  | c :: r =>
      if c =? 123 then
        match skip_ws r with
        | d :: r' =>
            if d =? 125 then Some (JObj [], r')
            else
              match pm (d :: r') with
              | Some (ms, rest) => Some (JObj ms, rest)
              | None => None
              end
        | [] => None
        end
      else if c =? 91 then
        match skip_ws r with
        | d :: r' =>
            if d =? 93 then Some (JArr [], r')
            else
              match pe (d :: r') with
              | Some (vs, rest) => Some (JArr vs, rest)
              | None => None
              end
        | [] => None
        end
      else if c =? 34 then
        match parse_string_chars r with
        | Some (str, rest) => Some (JStr str, rest)
        | None => None
        end
      else if c =? 116 then
        match strip_prefix (u "rue") r with
        | Some rest => Some (JBool true, rest)
        | None => None
        end
      else if c =? 102 then
        match strip_prefix (u "alse") r with
        | Some rest => Some (JBool false, rest)
        | None => None
        end
      else if c =? 110 then
        match strip_prefix (u "ull") r with
        | Some rest => Some (JNull, rest)
        | None => None
        end
      else
        match parse_number (c :: r) with
        | Some (x, rest) => Some (JNum x, rest)
        | None => None
        end
  end.

Definition elements_step
           (pv : jsstring -> option (value * jsstring))
           (pe : jsstring -> option (list value * jsstring))
           (s : jsstring) : option (list value * jsstring) :=
  match pv s with
  | Some (v, r) =>
      match skip_ws r with
      | c :: r' =>
          if c =? 44 then
            match pe r' with
            | Some (vs, rest) => Some (v :: vs, rest)
            | None => None
            end
          else if c =? 93 then Some ([v], r')
          else None
      | [] => None
      end
  | None => None
  end.

Definition members_step
           (pv : jsstring -> option (value * jsstring))
           (pm : jsstring -> option (list (jsstring * value) * jsstring))
           (s : jsstring) : option (list (jsstring * value) * jsstring) :=
  match skip_ws s with
  | q :: r0 =>
      if q =? 34 then
        match parse_string_chars r0 with
        | Some (k, r1) =>
            match skip_ws r1 with
            | c :: r2 =>
                if c =? 58 then
                  match pv r2 with
                  | Some (v, r3) =>
                      match skip_ws r3 with
                      | d :: r4 =>
                          if d =? 44 then
                            match pm r4 with
                            | Some (ms, rest) => Some ((k, v) :: ms, rest)
                            | None => None
                            end
                          else if d =? 125 then Some ([(k, v)], r4)
                          else None
                      | [] => None
                      end
                  | None => None
                  end
                else None
            | [] => None
            end
        | None => None
        end
      else None
  | [] => None
  end.

(** A parser that, when it succeeds, leaves less than it was given. *)
Definition consumes {A} (p : jsstring -> option (A * jsstring)) : Prop :=
  forall s x r, p s = Some (x, r) -> (length r < length s)%nat.

(** A success of the parser is a success at every fuel from twice the
    number of characters read. *)
Definition settled {A} (p : nat -> jsstring -> option (A * jsstring)) (f : nat)
  : Prop :=
  forall s x r,
    p f s = Some (x, r) ->
    forall f', (2 * (length s - length r) <= f')%nat -> p f' s = Some (x, r).

(* ================================================================== *)
(** ** Notions of the further properties *)

(** What the text of a value denotes: a number the text can not carry is
    written [null], and negative zero is written [0]. *)
Definition normalize_number (x : number) : value :=
  match x with
  | Finite neg s e => JNum (Finite (if s =? 0 then false else neg) s e)
  | _ => JNull
  end.

Fixpoint normalize (v : value) : value :=
  match v with
  | JNum x => normalize_number x
  | JArr vs => JArr (map normalize vs)
  | JObj ms => JObj (map (fun m : jsstring * value => (fst m, normalize (snd m))) ms)
  | _ => v
  end.

(** Values whose finite numbers keep the representation invariant. *)
Fixpoint wellformed (v : value) : Prop :=
  match v with
  | JNum x => canonical x
  | JArr vs => fold_right (fun v P => wellformed v /\ P) True vs
  | JObj ms =>
      fold_right (fun (m : jsstring * value) P => wellformed (snd m) /\ P) True ms
  | _ => True
  end.

(** Profiles whose numbers, finite or not, keep the representation
    invariant: every profile the program can hold. *)
Definition canonical_profile (p : UserProfile) : Prop :=
  Forall (fun g => canonical (HealthGoal.target g) /\
                   canonical (HealthGoal.current g)) (healthGoals p) /\
  Forall (fun s => canonical (VitalSign.value s)) (vitalSigns p).

(** Some goal or vital sign of the profile holds [NaN] or an infinity. *)
Definition has_nonfinite (p : UserProfile) : Prop :=
  Exists (fun g => is_finite (HealthGoal.target g) = false \/
                   is_finite (HealthGoal.current g) = false) (healthGoals p) \/
  Exists (fun s => is_finite (VitalSign.value s) = false) (vitalSigns p).



(** The identifiers of the medications, in order. *)
Definition medication_ids (p : UserProfile) : list jsstring :=
  map Medication.id (currentMedications p).

(** The partial goal [{}]. *)
Definition empty_goal_patch : PartialHealthGoal.t :=
  PartialHealthGoal.Build_t None None None None None.

(* ================================================================== *)
(** ** Tactics *)

(** Quotient and remainder of [n] by [d] as two numbers [lia] can treat. *)
Ltac euclid n d :=
  let q := fresh "q" in
  let r := fresh "r" in
  pose proof (N.Div0.div_mod n d);
  pose proof (N.mod_lt n d ltac:(lia));
  set (q := n / d) in *; set (r := n mod d) in *; clearbody q r.

(** Two parses that differ in how the exponent is written. *)
Ltac same_exponent :=
  match goal with
  | |- Some (Finite ?n ?s ?a, ?r) = Some (Finite ?n ?s ?b, ?r) =>
      replace a with b; [reflexivity|]
  end.

(** Settles the tests of a character against constants it differs from. *)
Ltac other_char :=
  repeat (cbn [orb]; cbv iota;
          match goal with
          | |- context [?x =? ?k] =>
              destruct (N.eqb_spec x k); [exfalso; lia|]
          end);
  cbn [orb]; cbv iota.

(* ================================================================== *)
(** ** Strings *)

Lemma str_eqb_refl (a : jsstring) : str_eqb a a = true.
Proof.
  induction a as [|x a IH]; simpl; [reflexivity|].
  now rewrite N.eqb_refl, IH.
Qed.

Lemma str_eqb_eq (a b : jsstring) : str_eqb a b = true <-> a = b.
Proof.
  split.
  - revert b; induction a as [|x a IH]; intros [|y b]; simpl; try discriminate; auto.
    intros H; apply andb_true_iff in H as [Hx Hr].
    apply N.eqb_eq in Hx; subst; f_equal; auto.
  - intros ->; apply str_eqb_refl.
Qed.

Lemma str_eqb_neq (a b : jsstring) : str_eqb a b = false <-> a <> b.
Proof.
  rewrite <- str_eqb_eq. destruct (str_eqb a b); split; congruence.
Qed.

(* ================================================================== *)
(** ** The six operations *)

Section Operations.

Variable prev : UserProfile.

(** C3. [updateUser] shallow-merges its argument into the profile: the
    result has, for each of the nineteen properties, the value the partial
    profile gives it when it names the property, and the previous value
    when it does not. *)
Theorem updateUser_merge (updates : Partial.t) :
  exists next,
    updateUser updates (Some prev) = Some next /\
    forall f : field,
      read f next =
        match named f updates with Some v => v | None => read f prev end.
Proof.
  eexists; split; [reflexivity|].
  intros f; destruct f; reflexivity.
Qed.

(** The instance given with the property: [updateUser({email: x})] changes
    [email] only. *)
Lemma updateUser_email_only (x : jsstring) :
  let updates :=
    Partial.Build_t None None (Some x) None None None None None None None
                    None None None None None None None None None in
  exists next,
    updateUser updates (Some prev) = Some next /\
    email next = x /\
    forall f, f <> Email -> read f next = read f prev.
Proof.
  eexists; split; [reflexivity|]; split; [reflexivity|].
  intros f Hf; destruct f; try reflexivity; congruence.
Qed.

Lemma filter_without (id : jsstring) (l : list Medication.t) :
  without id l (filter (fun med => negb (str_eqb (Medication.id med) id)) l).
Proof.
  induction l as [|m l IH]; simpl; [constructor|].
  destruct (str_eqb (Medication.id m) id) eqn:E; simpl.
  - apply without_drop; [now apply str_eqb_eq | exact IH].
  - apply without_keep; [now apply str_eqb_neq | exact IH].
Qed.

Lemma without_absent (id : jsstring) (l l' : list Medication.t) :
  without id l l' ->
  (forall m, In m l -> Medication.id m <> id) -> l' = l.
Proof.
  induction 1 as [|m l l' Hm _ _|m l l' Hm _ IH]; intros Hno.
  - reflexivity.
  - exfalso; apply (Hno m); [left; reflexivity | exact Hm].
  - f_equal; apply IH; intros m' Hin; apply Hno; right; exact Hin.
Qed.

(** C4. [removeMedication(id)] takes out of [currentMedications] the
    entries whose identifier is [id], all of them and only them, the others
    keeping their order; when no entry has the identifier the sequence is
    the same as before. *)
Theorem removeMedication_removes (medicationId : jsstring) :
  exists next,
    removeMedication medicationId (Some prev) = Some next /\
    without medicationId (currentMedications prev) (currentMedications next) /\
    ((forall m, In m (currentMedications prev) ->
                Medication.id m <> medicationId) ->
     currentMedications next = currentMedications prev).
Proof.
  eexists; split; [reflexivity|]; simpl; split.
  - apply filter_without.
  - apply without_absent, filter_without.
Qed.

Lemma without_functional (id : jsstring) (l l1 l2 : list Medication.t) :
  without id l l1 -> without id l l2 -> l1 = l2.
Proof.
  intros H1; revert l2.
  induction H1 as [|m l l1 Hm _ IH|m l l1 Hm _ IH]; intros l2 H2;
    inversion H2; subst; try congruence; auto.
  f_equal; auto.
Qed.

(** The instance given with C4, on the two medications of the default
    profile. *)
Lemma removeMedication_default :
  option_map currentMedications
    (removeMedication (u "1") (Some defaultUser))
    = Some (tl (currentMedications defaultUser)) /\
  option_map currentMedications
    (removeMedication (u "nonexistent") (Some defaultUser))
    = Some (currentMedications defaultUser).
Proof. split; reflexivity. Qed.

Lemma patch_goal_merged (g : HealthGoal.t) (q : PartialHealthGoal.t) :
  merged g q (patch_goal g q).
Proof. repeat split. Qed.

Lemma map_absent (goalId : jsstring) (q : PartialHealthGoal.t)
      (l : list HealthGoal.t) :
  (forall g, In g l -> HealthGoal.id g <> goalId) ->
  map (fun goal => if str_eqb (HealthGoal.id goal) goalId
                   then patch_goal goal q else goal) l = l.
Proof.
  induction l as [|g l IH]; intros Hno; simpl; [reflexivity|].
  assert (E : str_eqb (HealthGoal.id g) goalId = false)
    by (apply str_eqb_neq, Hno; left; reflexivity).
  rewrite E, IH; [reflexivity|].
  intros g' Hin; apply Hno; right; exact Hin.
Qed.

Lemma with_healthGoals_same : with_healthGoals (healthGoals prev) prev = prev.
Proof. destruct prev; reflexivity. Qed.

(** C5. [updateHealthGoal(id, updates)] on a profile none of whose goals
    has the identifier gives the profile back as it was, [healthGoals]
    included; otherwise the goal at each position with the identifier is
    replaced by the goal merged with [updates], and the goal at each other
    position stays. *)
Theorem updateHealthGoal_patch (goalId : jsstring) (updates : PartialHealthGoal.t) :
  exists next,
    updateHealthGoal goalId updates (Some prev) = Some next /\
    ((forall g, In g (healthGoals prev) -> HealthGoal.id g <> goalId) ->
     next = prev) /\
    forall i g,
      nth_error (healthGoals prev) i = Some g ->
      exists g',
        nth_error (healthGoals next) i = Some g' /\
        (HealthGoal.id g = goalId -> merged g updates g') /\
        (HealthGoal.id g <> goalId -> g' = g).
Proof.
  eexists; split; [reflexivity|]; split.
  - intros Hno; rewrite map_absent by exact Hno. apply with_healthGoals_same.
  - intros i g Hi; simpl.
    rewrite nth_error_map, Hi; simpl.
    eexists; split; [reflexivity|].
    destruct (str_eqb (HealthGoal.id g) goalId) eqn:E.
    + split; [intros _; apply patch_goal_merged|].
      apply str_eqb_eq in E; congruence.
    + split; [|reflexivity].
      apply str_eqb_neq in E; congruence.
Qed.

(** C6. Additions go to the end: [addVitalSign(v1)] followed by
    [addVitalSign(v2)] leaves [vitalSigns] as it was with [v1] and then
    [v2] after it, and each of the three additions puts its argument
    after the entries already there. *)
Theorem additions_append
        (v1 v2 : VitalSign.t) (m : Medication.t) (a : Appointment.t) :
  option_map vitalSigns (addVitalSign v2 (addVitalSign v1 (Some prev)))
    = Some (vitalSigns prev ++ [v1; v2]) /\
  option_map vitalSigns (addVitalSign v1 (Some prev))
    = Some (vitalSigns prev ++ [v1]) /\
  option_map currentMedications (addMedication m (Some prev))
    = Some (currentMedications prev ++ [m]) /\
  option_map appointments (addAppointment a (Some prev))
    = Some (appointments prev ++ [a]).
Proof.
  repeat split; simpl.
  now rewrite <- app_assoc.
Qed.

(** C9. Each operation on a sequence leaves the eighteen properties other
    than its own sequence as they were. *)
Theorem sequence_operations_frame
        (m : Medication.t) (medicationId : jsstring) (v : VitalSign.t)
        (a : Appointment.t) (goalId : jsstring) (updates : PartialHealthGoal.t) :
  (exists next, addMedication m (Some prev) = Some next /\
     forall f, f <> CurrentMedications -> read f next = read f prev) /\
  (exists next, removeMedication medicationId (Some prev) = Some next /\
     forall f, f <> CurrentMedications -> read f next = read f prev) /\
  (exists next, addVitalSign v (Some prev) = Some next /\
     forall f, f <> VitalSigns -> read f next = read f prev) /\
  (exists next, addAppointment a (Some prev) = Some next /\
     forall f, f <> Appointments -> read f next = read f prev) /\
  (exists next, updateHealthGoal goalId updates (Some prev) = Some next /\
     forall f, f <> HealthGoals -> read f next = read f prev).
Proof.
  repeat split;
    (eexists; split; [reflexivity|];
     intros f Hf; destruct f; try reflexivity; congruence).
Qed.

(** C10. [updateHealthGoal(id, updates)] goes through the whole sequence:
    the result has the goals of the old one position by position, each
    goal with the identifier merged with [updates] (however many there
    are) and each other goal itself; and when [updates] names [id], the
    goals that had the identifier carry the new one afterwards. *)
Theorem updateHealthGoal_every_match
        (goalId : jsstring) (updates : PartialHealthGoal.t) :
  exists next,
    updateHealthGoal goalId updates (Some prev) = Some next /\
    length (healthGoals next) = length (healthGoals prev) /\
    Forall2 (fun g g' =>
               (HealthGoal.id g = goalId -> merged g updates g') /\
               (HealthGoal.id g <> goalId -> g' = g))
            (healthGoals prev) (healthGoals next) /\
    forall id',
      PartialHealthGoal.id updates = Some id' ->
      Forall2 (fun g g' => HealthGoal.id g = goalId -> HealthGoal.id g' = id')
              (healthGoals prev) (healthGoals next).
Proof.
  eexists; split; [reflexivity|]; simpl.
  split; [apply length_map|].
  split.
  - induction (healthGoals prev) as [|g l IH]; simpl; constructor; [|exact IH].
    destruct (str_eqb (HealthGoal.id g) goalId) eqn:E.
    + split; [intros _; apply patch_goal_merged|].
      apply str_eqb_eq in E; congruence.
    + split; [|reflexivity].
      apply str_eqb_neq in E; congruence.
  - intros id' Hid.
    induction (healthGoals prev) as [|g l IH]; simpl; constructor; [|exact IH].
    intros Hg. apply str_eqb_eq in Hg. rewrite Hg. simpl. now rewrite Hid.
Qed.

End Operations.

(** An instance of C10: two goals share the identifier ["1"]; a patch that
    names [current] and [id] reaches both. *)
Lemma updateHealthGoal_duplicates :
  let g1 := HealthGoal.Build_t (u "1") (u "water") (num 8) (num 5) (u "glasses") in
  let g2 := HealthGoal.Build_t (u "2") (u "steps") (num 10000) (num 7500) (u "steps") in
  let g3 := HealthGoal.Build_t (u "1") (u "weight") (num 170) (num 175) (u "lbs") in
  let q := PartialHealthGoal.Build_t (Some (u "9")) None None (Some (num 6)) None in
  option_map healthGoals
    (updateHealthGoal (u "1") q (Some (with_healthGoals [g1; g2; g3] defaultUser)))
  = Some [ HealthGoal.Build_t (u "9") (u "water") (num 8) (num 6) (u "glasses");
           g2;
           HealthGoal.Build_t (u "9") (u "weight") (num 170) (num 6) (u "lbs") ].
Proof. reflexivity. Qed.

(** C8. With no profile in the state ([null]) each of the six operations
    leaves the state [null], whatever its arguments. *)
Theorem operations_on_null
        (updates : Partial.t) (m : Medication.t) (medicationId : jsstring)
        (v : VitalSign.t) (a : Appointment.t)
        (goalId : jsstring) (goalUpdates : PartialHealthGoal.t) :
  updateUser updates None = None /\
  addMedication m None = None /\
  removeMedication medicationId None = None /\
  addVitalSign v None = None /\
  addAppointment a None = None /\
  updateHealthGoal goalId goalUpdates None = None.
Proof. repeat split. Qed.

(* ================================================================== *)
(** ** [useUser] *)

Lemma useContext_outside (ancestors : list ancestor) :
  outside_provider ancestors -> useContext ancestors = None.
Proof.
  induction ancestors as [|[v|tag] outer IH]; intros Hout; simpl.
  - reflexivity.
  - exfalso; apply (Hout v); left; reflexivity.
  - apply IH; intros v Hin; apply (Hout v); right; exact Hin.
Qed.

(** C7. Called where no [UserContext.Provider] encloses the caller,
    [useUser] throws an [Error] at once; it returns no context value. *)
Theorem useUser_outside_provider (ancestors : list ancestor) :
  outside_provider ancestors ->
  useUser ancestors =
    Throw (Error (u "useUser must be used within a UserProvider")).
Proof.
  intros Hout; unfold useUser; now rewrite useContext_outside.
Qed.

Lemma useUser_outside_provider_witness :
  useUser [Element (u "main"); Element (u "body")] =
    Throw (Error (u "useUser must be used within a UserProvider")).
Proof.
  apply useUser_outside_provider.
  intros v [H|[H|[]]]; discriminate H.
Defined.

(** Within a provider the hook returns what the provider gives. *)
Lemma useUser_inside_provider (w : World) (inner outer : list ancestor) :
  outside_provider inner ->
  useUser (inner ++ Provider (provided w) :: outer) = Normal (provided w).
Proof.
  intros Hout; unfold useUser.
  induction inner as [|[v|tag] inner IH]; simpl.
  - reflexivity.
  - exfalso; apply (Hout v); left; reflexivity.
  - apply IH; intros v Hin; apply (Hout v); right; exact Hin.
Qed.

(* ================================================================== *)
(** ** Decimal digits *)

Lemma of_digits_rev (l : list char16) : of_digits (rev l) = value_le l.
Proof.
  unfold of_digits.
  induction l as [|c r IH]; [reflexivity|].
  cbn [rev value_le]. rewrite fold_left_app. cbn [fold_left].
  rewrite N.add_comm. f_equal. f_equal. exact IH.
Qed.

Lemma value_le_digits_le (fuel : nat) (n : N) :
  n < 2 ^ N.of_nat fuel -> value_le (digits_le fuel n) = n.
Proof.
  revert n; induction fuel as [|f IH]; intros n Hn.
  - simpl in *. lia.
  - simpl digits_le. destruct (N.eqb_spec n 0) as [->|Hnz]; [reflexivity|].
    simpl value_le. rewrite IH.
    + euclid n 10. lia.
    + rewrite Nat2N.inj_succ, N.pow_succ_r' in Hn.
      apply N.Div0.div_lt_upper_bound. lia.
Qed.

Lemma size_bound (n : N) : n < 2 ^ N.of_nat (N.to_nat (N.size n)).
Proof. rewrite N2Nat.id. apply N.size_gt. Qed.

Lemma of_digits_digits (n : N) : of_digits (digits n) = n.
Proof.
  unfold digits. rewrite of_digits_rev. apply value_le_digits_le, size_bound.
Qed.

Lemma is_digit_offset (d : N) : d < 10 -> is_digit (48 + d) = true.
Proof.
  intros Hd; unfold is_digit.
  apply andb_true_iff; split; apply N.leb_le; lia.
Qed.

Lemma digits_le_all (fuel : nat) (n : N) :
  forallb is_digit (digits_le fuel n) = true.
Proof.
  revert n; induction fuel as [|f IH]; intros n; simpl; [reflexivity|].
  destruct (n =? 0); simpl; [reflexivity|].
  rewrite IH, is_digit_offset; [reflexivity|].
  apply N.mod_lt; lia.
Qed.

Lemma digits_all (n : N) : forallb is_digit (digits n) = true.
Proof.
  unfold digits. rewrite forallb_forall; intros c Hc.
  apply in_rev in Hc.
  pose proof (digits_le_all (N.to_nat (N.size n)) n) as H.
  rewrite forallb_forall in H; auto.
Qed.

(** The most significant digit of a positive number is not zero. *)
Lemma digits_le_last (fuel : nat) (n : N) :
  n < 2 ^ N.of_nat fuel -> n <> 0 ->
  exists l d, digits_le fuel n = l ++ [d] /\ d <> 48.
Proof.
  revert n; induction fuel as [|f IH]; intros n Hn Hnz.
  - simpl in Hn. lia.
  - simpl. destruct (N.eqb_spec n 0) as [->|_]; [congruence|].
    destruct (N.eqb_spec (n / 10) 0) as [E|E].
    + exists [], (48 + n mod 10). rewrite E. split.
      * destruct f; reflexivity.
      * euclid n 10. lia.
    + destruct (IH (n / 10)) as (l & d & Hl & Hd); [|exact E|].
      * rewrite Nat2N.inj_succ, N.pow_succ_r' in Hn.
        apply N.Div0.div_lt_upper_bound. lia.
      * exists ((48 + n mod 10) :: l), d. rewrite Hl. split; [reflexivity|exact Hd].
Qed.

Lemma digits_head (n : N) :
  n <> 0 -> exists d r, digits n = d :: r /\ d <> 48 /\ is_digit d = true.
Proof.
  intros Hnz.
  destruct (digits_le_last _ n (size_bound n) Hnz) as (l & d & Hl & Hd).
  pose proof (digits_all n) as Hall.
  unfold digits in *. rewrite Hl, rev_app_distr in *. simpl in *.
  apply andb_true_iff in Hall as [Hdig _].
  exists d, (rev l). auto.
Qed.

(** The least significant digit of a number not divisible by ten is not
    zero. *)
Lemma digits_last (n : N) :
  n mod 10 <> 0 -> exists l d, digits n = l ++ [d] /\ d <> 48.
Proof.
  intros Hm.
  assert (Hnz : n <> 0) by (intros ->; apply Hm; reflexivity).
  unfold digits.
  destruct (N.to_nat (N.size n)) as [|f] eqn:Ef.
  - pose proof (size_bound n) as Hb. rewrite Ef in Hb. simpl in Hb. lia.
  - simpl. destruct (N.eqb_spec n 0) as [|_]; [contradiction|].
    simpl. exists (rev (digits_le f (n / 10))), (48 + n mod 10).
    split; [reflexivity|lia].
Qed.

Lemma digits_nonempty (n : N) : n <> 0 -> digits n <> [].
Proof.
  intros Hnz. destruct (digits_head n Hnz) as (d & r & -> & _). discriminate.
Qed.

Lemma strip10_canonical (fuel : nat) (s : N) (e : Z) :
  s <> 0 -> s < 2 ^ N.of_nat fuel -> fst (strip10 fuel s e) mod 10 <> 0.
Proof.
  revert s e; induction fuel as [|f IH]; intros s e Hnz Hs.
  - simpl in Hs. lia.
  - cbn [strip10].
    destruct (N.eqb_spec s 0) as [|_]; [contradiction|]. cbn [orb].
    destruct (N.eqb_spec (s mod 10) 0) as [Hm|Hm]; cbn [negb]; [|exact Hm].
    rewrite Nat2N.inj_succ, N.pow_succ_r' in Hs.
    apply IH.
    + euclid s 10. lia.
    + apply N.Div0.div_lt_upper_bound. lia.
Qed.

(** The integers written in the source are numbers JSON text can carry. *)
Lemma num_json_number (z : Z) : json_number (num z).
Proof.
  unfold num. destruct (N.eqb_spec (Z.abs_N z) 0) as [_|Hnz].
  - split; [reflexivity|auto].
  - pose proof (strip10_canonical _ _ 0%Z Hnz (size_bound (Z.abs_N z))) as Hc.
    destruct (strip10 (N.to_nat (N.size (Z.abs_N z))) (Z.abs_N z) 0)
      as [s' e']. cbn [fst] in Hc.
    assert (Hs' : s' <> 0) by (intros ->; apply Hc; reflexivity).
    split; [|contradiction].
    cbn [canonical]. destruct (N.eqb_spec s' 0); [contradiction|exact Hc].
Qed.

(* ================================================================== *)
(** ** Number literals *)

Lemma digit_not_number_char (rest : jsstring) :
  starts_with number_char rest = false -> starts_with is_digit rest = false.
Proof.
  destruct rest as [|c r]; simpl; [reflexivity|].
  unfold number_char. destruct (is_digit c); simpl; congruence.
Qed.

Lemma span_digits_app (ds rest : jsstring) :
  forallb is_digit ds = true -> starts_with is_digit rest = false ->
  span_digits (ds ++ rest) = (ds, rest).
Proof.
  intros Hds Hrest. induction ds as [|c ds IH]; simpl.
  - destruct rest as [|c r]; simpl in *; [reflexivity|]. now rewrite Hrest.
  - simpl in Hds. apply andb_true_iff in Hds as [Hc Hds].
    now rewrite Hc, IH.
Qed.

Lemma forallb_repeat_zero (t : nat) : forallb is_digit (repeat 48 t) = true.
Proof. induction t; simpl; auto. Qed.

Lemma strip_zeros_le_repeat (t : nat) (d : char16) (x : list char16) :
  d <> 48 -> strip_zeros_le (repeat 48 t ++ d :: x) = (d :: x, t).
Proof.
  intros Hd. induction t as [|t IH]; simpl.
  - apply N.eqb_neq in Hd. now rewrite Hd.
  - now rewrite IH.
Qed.

Lemma strip_trailing_zeros_app (l : list char16) (d : char16) (t : nat) :
  d <> 48 ->
  strip_trailing_zeros ((l ++ [d]) ++ repeat 48 t) = (l ++ [d], t).
Proof.
  intros Hd. unfold strip_trailing_zeros.
  rewrite !rev_app_distr, rev_repeat. simpl.
  rewrite strip_zeros_le_repeat by exact Hd.
  simpl. now rewrite rev_involutive.
Qed.

Lemma of_digits_app (a b : list char16) :
  of_digits (a ++ b) = fold_left (fun acc c => 10 * acc + (c - 48)) b (of_digits a).
Proof. unfold of_digits. apply fold_left_app. Qed.

Lemma of_digits_zeros (j : nat) (ds : list char16) :
  of_digits (repeat 48 j ++ ds) = of_digits ds.
Proof.
  rewrite of_digits_app.
  replace (of_digits (repeat 48 j)) with 0; [reflexivity|].
  induction j as [|j IH]; [reflexivity|].
  change (repeat 48 (S j)) with ([48] ++ repeat 48 j).
  rewrite of_digits_app. exact IH.
Qed.

(** The number of a literal whose digits are those of [s] between [j]
    leading and [t] trailing zeros. *)
Lemma number_of_literal_digits
      (neg : bool) (s : N) (int frac : list char16) (exp : Z) (j t : nat) :
  s mod 10 <> 0 ->
  int ++ frac = repeat 48 j ++ digits s ++ repeat 48 t ->
  number_of_literal neg int frac exp
    = Finite neg s (exp - Z.of_nat (length frac) + Z.of_nat t).
Proof.
  intros Hs Hparts. unfold number_of_literal. rewrite Hparts.
  destruct (digits_last s Hs) as (l & d & Hl & Hd).
  rewrite Hl.
  replace (repeat 48 j ++ (l ++ [d]) ++ repeat 48 t)
    with (((repeat 48 j ++ l) ++ [d]) ++ repeat 48 t)
    by (now rewrite <- !app_assoc).
  rewrite strip_trailing_zeros_app by exact Hd.
  rewrite <- app_assoc, of_digits_zeros, <- Hl, of_digits_digits.
  assert (Hnz : s <> 0) by (intros ->; apply Hs; reflexivity).
  apply N.eqb_neq in Hnz. now rewrite Hnz.
Qed.

Lemma parse_frac_none (rest : jsstring) :
  starts_with number_char rest = false -> parse_frac rest = Some ([], rest).
Proof.
  destruct rest as [|c r]; simpl; [reflexivity|].
  unfold number_char. intros H.
  destruct (c =? 46); [|reflexivity].
  rewrite orb_true_r in H. discriminate.
Qed.

Lemma parse_exp_none (rest : jsstring) :
  starts_with number_char rest = false -> parse_exp rest = Some (0%Z, rest).
Proof.
  destruct rest as [|c r]; simpl; [reflexivity|].
  unfold number_char. intros H.
  destruct (c =? 101); [rewrite !orb_true_r in H; discriminate|].
  destruct (c =? 69); [rewrite !orb_true_r in H; discriminate|].
  reflexivity.
Qed.

Lemma parse_frac_printed (fds rest : jsstring) :
  fds <> [] -> forallb is_digit fds = true -> starts_with is_digit rest = false ->
  parse_frac (46 :: fds ++ rest) = Some (fds, rest).
Proof.
  intros Hne Hds Hrest. unfold parse_frac. simpl (46 =? 46).
  rewrite span_digits_app by assumption.
  destruct fds; [contradiction|reflexivity].
Qed.

Lemma decimal_digits (m : N) :
  decimal m <> [] /\ forallb is_digit (decimal m) = true /\
  of_digits (decimal m) = m.
Proof.
  unfold decimal. destruct (N.eqb_spec m 0) as [->|Hm].
  - repeat split; discriminate.
  - split; [now apply digits_nonempty|].
    split; [apply digits_all | apply of_digits_digits].
Qed.

Lemma parse_exp_printed (x : Z) (rest : jsstring) :
  starts_with is_digit rest = false ->
  parse_exp (u "e" ++ (if (x <? 0)%Z then u "-" else u "+")
               ++ decimal (Z.abs_N x) ++ rest) = Some (x, rest).
Proof.
  intros Hrest.
  destruct (decimal_digits (Z.abs_N x)) as (Hne & Hds & Hval).
  destruct (Z.ltb_spec x 0) as [Hx|Hx]; simpl;
    rewrite span_digits_app by assumption;
    (destruct (decimal (Z.abs_N x)) eqn:E; [contradiction|]);
    rewrite Hval; do 2 f_equal; lia.
Qed.

Lemma parse_unsigned_nonzero (neg : bool) (d : char16) (r tail : jsstring) :
  d <> 48 -> forallb is_digit (d :: r) = true ->
  starts_with is_digit tail = false ->
  parse_unsigned neg ((d :: r) ++ tail) = after_int neg (d :: r) tail.
Proof.
  intros Hd Hds Htail. unfold parse_unsigned, after_int.
  rewrite span_digits_app by assumption.
  simpl in Hds. apply andb_true_iff in Hds as [Hdig _].
  apply N.eqb_neq in Hd. simpl. now rewrite Hdig, Hd.
Qed.

Lemma parse_unsigned_zero (neg : bool) (tail : jsstring) :
  parse_unsigned neg (48 :: tail) = after_int neg [48] tail.
Proof. reflexivity. Qed.

Section Printed.

Variables (neg : bool) (s : N) (rest : jsstring).
Hypothesis Hs : s mod 10 <> 0.
Hypothesis Hrest : starts_with number_char rest = false.

Let Hnz : s <> 0.
Proof. intros E; apply Hs; rewrite E; reflexivity. Qed.

(** [ddd000] *)
Lemma parse_unsigned_integer (t : nat) :
  parse_unsigned neg ((digits s ++ repeat 48 t) ++ rest)
    = Some (Finite neg s (Z.of_nat t), rest).
Proof.
  destruct (digits_head s Hnz) as (d & r & Hds & Hd & _).
  pose proof (digits_all s) as Hall.
  assert (Hint : forallb is_digit (digits s ++ repeat 48 t) = true)
    by (now rewrite forallb_app, Hall, forallb_repeat_zero).
  rewrite Hds in Hint |- *. simpl app in Hint |- *.
  change (d :: (r ++ repeat 48 t) ++ rest) with ((d :: r ++ repeat 48 t) ++ rest).
  rewrite parse_unsigned_nonzero;
    [|exact Hd|exact Hint|now apply digit_not_number_char].
  unfold after_int. rewrite parse_frac_none, parse_exp_none by exact Hrest.
  rewrite (number_of_literal_digits neg s _ [] 0%Z 0 t Hs).
  - same_exponent. simpl. lia.
  - rewrite app_nil_r, Hds. reflexivity.
Qed.

(** [dd.ddd] *)
Lemma parse_unsigned_point (i : nat) :
  (0 < i < length (digits s))%nat ->
  parse_unsigned neg ((firstn i (digits s) ++ 46 :: skipn i (digits s)) ++ rest)
    = Some (Finite neg s (- Z.of_nat (length (digits s) - i)), rest).
Proof.
  intros Hi.
  destruct (digits_head s Hnz) as (d & r & Hds & Hd & _).
  pose proof (digits_all s) as Hall.
  rewrite <- (firstn_skipn i (digits s)), forallb_app in Hall.
  apply andb_true_iff in Hall as [Hint Hfrac].
  assert (Hlen : length (skipn i (digits s)) = (length (digits s) - i)%nat)
    by apply length_skipn.
  assert (Hne : skipn i (digits s) <> [])
    by (intros E; rewrite E in Hlen; simpl in Hlen; lia).
  rewrite <- app_assoc.
  assert (Hfirst : firstn i (digits s) = d :: firstn (pred i) r)
    by (rewrite Hds; destruct i; [lia|reflexivity]).
  rewrite Hfirst in Hint |- *.
  rewrite parse_unsigned_nonzero; [|exact Hd|exact Hint|reflexivity].
  unfold after_int. simpl app.
  rewrite parse_frac_printed;
    [|exact Hne|exact Hfrac|now apply digit_not_number_char].
  rewrite parse_exp_none by exact Hrest.
  rewrite (number_of_literal_digits neg s _ _ 0%Z 0 0 Hs).
  - same_exponent. rewrite Hlen. lia.
  - rewrite <- Hfirst, firstn_skipn, app_nil_r. reflexivity.
Qed.

(** [0.000ddd] *)
Lemma parse_unsigned_fraction (j : nat) :
  parse_unsigned neg ((u "0." ++ repeat 48 j ++ digits s) ++ rest)
    = Some (Finite neg s (- Z.of_nat (j + length (digits s))), rest).
Proof.
  pose proof (digits_all s) as Hall.
  change ((u "0." ++ repeat 48 j ++ digits s) ++ rest)
    with (48 :: 46 :: (repeat 48 j ++ digits s) ++ rest).
  rewrite parse_unsigned_zero. unfold after_int.
  rewrite parse_frac_printed.
  - rewrite parse_exp_none by exact Hrest.
    rewrite (number_of_literal_digits neg s _ _ 0%Z (S j) 0 Hs).
    + same_exponent. rewrite length_app, repeat_length. lia.
    + rewrite app_nil_r. reflexivity.
  - intros E. apply app_eq_nil in E as [_ E]. now apply (digits_nonempty s).
  - now rewrite forallb_app, forallb_repeat_zero, Hall.
  - now apply digit_not_number_char.
Qed.

(** [d.ddde+xx] and [de+xx] *)
Lemma parse_unsigned_exponent (d : char16) (r : jsstring) (x : Z) :
  digits s = d :: r ->
  parse_unsigned neg
    ((d :: match r with [] => [] | _ :: _ => 46 :: r end
        ++ u "e" ++ (if (x <? 0)%Z then u "-" else u "+") ++ decimal (Z.abs_N x))
       ++ rest)
    = Some (Finite neg s (x - Z.of_nat (length r)), rest).
Proof.
  intros Hds.
  destruct (digits_head s Hnz) as (d' & r' & Hds' & Hd & Hdig).
  rewrite Hds in Hds'. injection Hds' as <- <-.
  pose proof (digits_all s) as Hall. rewrite Hds in Hall.
  assert (Hr : forallb is_digit r = true)
    by (simpl in Hall; now apply andb_true_iff in Hall).
  assert (Hrest' : starts_with is_digit rest = false)
    by now apply digit_not_number_char.
  set (ex := u "e" ++ (if (x <? 0)%Z then u "-" else u "+") ++ decimal (Z.abs_N x)).
  assert (Hex : parse_exp (ex ++ rest) = Some (x, rest)).
  { unfold ex. rewrite <- !app_assoc. now apply parse_exp_printed. }
  destruct r as [|c r].
  - change ((d :: [] ++ ex) ++ rest) with ([d] ++ ex ++ rest).
    rewrite parse_unsigned_nonzero;
      [|exact Hd|simpl; now rewrite Hdig|reflexivity].
    unfold after_int.
    replace (parse_frac (ex ++ rest)) with (Some (@nil N, ex ++ rest))
      by reflexivity.
    rewrite Hex.
    rewrite (number_of_literal_digits neg s _ _ x 0 0 Hs).
    + same_exponent. simpl. lia.
    + rewrite Hds. reflexivity.
  - replace ((d :: (46 :: c :: r) ++ ex) ++ rest)
      with ([d] ++ 46 :: (c :: r) ++ ex ++ rest)
      by (cbn [app]; do 3 f_equal; apply app_assoc).
    rewrite parse_unsigned_nonzero;
      [|exact Hd|simpl; now rewrite Hdig|reflexivity].
    unfold after_int.
    rewrite parse_frac_printed; [|discriminate|exact Hr|reflexivity].
    rewrite Hex.
    rewrite (number_of_literal_digits neg s _ _ x 0 0 Hs).
    + same_exponent. simpl length. lia.
    + rewrite Hds, app_nil_r. reflexivity.
Qed.

End Printed.

(** The sign of a literal. *)
Lemma parse_number_signed (neg : bool) (d : char16) (body rest : jsstring) :
  is_digit d = true ->
  parse_number (((if neg then u "-" else []) ++ d :: body) ++ rest)
    = parse_unsigned neg ((d :: body) ++ rest).
Proof.
  intros Hd. destruct neg; [reflexivity|].
  simpl. destruct (N.eqb_spec d 45) as [->|_]; [discriminate Hd|reflexivity].
Qed.

(** [JSON.parse] reads back the number [Number::toString] printed. *)
Lemma parse_number_printed (x : number) (rest : jsstring) :
  json_number x -> starts_with number_char rest = false ->
  parse_number (NumberToString x ++ rest) = Some (x, rest).
Proof.
  intros Hx Hrest. destruct x as [| |neg s e]; try contradiction.
  destruct Hx as [Hcan Hneg]. simpl in Hcan. unfold NumberToString.
  destruct (N.eqb_spec s 0) as [->|Hnz].
  - rewrite (Hneg eq_refl), Hcan.
    change (parse_number (u "0" ++ rest)) with (after_int false [48] rest).
    unfold after_int. now rewrite parse_frac_none, parse_exp_none.
  - destruct (digits_head s Hnz) as (d & r & Hds & Hd & Hdig).
    assert (Hlen : Z.of_nat (length (digits s)) = Z.of_nat (S (length r)))
      by (now rewrite Hds).
    set (k := Z.of_nat (length (digits s))) in *.
    set (n := (e + k)%Z).
    destruct ((k <=? n)%Z && (n <=? 21)%Z) eqn:C1.
    { apply andb_true_iff in C1 as [C1 _]. apply Z.leb_le in C1.
      rewrite Hds at 1. simpl app at 2.
      rewrite parse_number_signed by exact Hdig.
      change (d :: r ++ repeat 48 (Z.to_nat (n - k)))
        with ((d :: r) ++ repeat 48 (Z.to_nat (n - k))).
      rewrite <- Hds, parse_unsigned_integer by assumption.
      same_exponent. lia. }
    destruct ((0 <? n)%Z && (n <=? 21)%Z) eqn:C2.
    { apply andb_true_iff in C2 as [C2 C2'].
      rewrite C2', andb_true_r in C1.
      apply Z.ltb_lt in C2. apply Z.leb_le in C2'. apply Z.leb_gt in C1.
      assert (Hi : (0 < Z.to_nat n < length (digits s))%nat) by lia.
      assert (Hfirst : firstn (Z.to_nat n) (digits s)
                       = d :: firstn (pred (Z.to_nat n)) r)
        by (rewrite Hds; destruct (Z.to_nat n); [lia|reflexivity]).
      rewrite Hfirst. simpl app at 2.
      rewrite parse_number_signed by exact Hdig.
      change (d :: firstn (pred (Z.to_nat n)) r ++ 46 :: skipn (Z.to_nat n) (digits s))
        with ((d :: firstn (pred (Z.to_nat n)) r) ++ 46 :: skipn (Z.to_nat n) (digits s)).
      rewrite <- Hfirst, parse_unsigned_point by assumption.
      same_exponent. lia. }
    destruct ((-6 <? n)%Z && (n <=? 0)%Z) eqn:C3.
    { apply andb_true_iff in C3 as [_ C3]. apply Z.leb_le in C3.
      change (u "0." ++ repeat 48 (Z.to_nat (- n)) ++ digits s)
        with (48 :: (46 :: repeat 48 (Z.to_nat (- n)) ++ digits s)).
      rewrite parse_number_signed by reflexivity.
      change (48 :: 46 :: repeat 48 (Z.to_nat (- n)) ++ digits s)
        with (u "0." ++ repeat 48 (Z.to_nat (- n)) ++ digits s).
      rewrite parse_unsigned_fraction by assumption.
      same_exponent. lia. }
    rewrite Hds.
    set (ex := u "e" ++ (if (n - 1 <? 0)%Z then u "-" else u "+")
                 ++ decimal (Z.abs_N (n - 1))).
    cbv zeta.
    replace (match d :: r with
             | [] => []
             | [d0] => d0 :: ex
             | d0 :: (_ :: _) as rest0 => d0 :: u "." ++ rest0 ++ ex
             end)
      with (d :: match r with [] => [] | _ :: _ => 46 :: r end ++ ex)
      by (destruct r; reflexivity).
    rewrite parse_number_signed by exact Hdig.
    unfold ex. rewrite (parse_unsigned_exponent neg s rest Hcan Hrest d r (n - 1) Hds).
    same_exponent. unfold n. lia.
Qed.

(* ================================================================== *)
(** ** String literals *)

Lemma hex_value_digit (n : N) : n < 16 -> hex_value (hex_digit n) = Some n.
Proof.
  intros Hn. unfold hex_digit, hex_value, is_digit.
  destruct (N.ltb_spec n 10) as [Hlt|Hge].
  - destruct (N.leb_spec 48 (48 + n)); [|lia].
    destruct (N.leb_spec (48 + n) 57); [|lia].
    simpl. f_equal. lia.
  - destruct (N.leb_spec (87 + n) 57); [lia|].
    rewrite andb_false_r.
    destruct (N.leb_spec 97 (87 + n)); [|lia].
    destruct (N.leb_spec (87 + n) 102); [|lia].
    simpl. f_equal. lia.
Qed.

Lemma hex4_escape (c : char16) :
  c < 65536 ->
  hex4 (hex_digit (c / 4096 mod 16)) (hex_digit (c / 256 mod 16))
       (hex_digit (c / 16 mod 16)) (hex_digit (c mod 16)) = Some c.
Proof.
  intros Hc. unfold hex4.
  rewrite !hex_value_digit by (apply N.mod_lt; lia).
  f_equal.
  change 4096 with (16 * 16 * 16). change 256 with (16 * 16).
  rewrite <- !N.Div0.div_div.
  euclid c 16. euclid q 16. euclid q0 16. euclid q1 16. lia.
Qed.

Lemma parse_unicode_escape (c : char16) (t : jsstring) :
  c < 65536 ->
  parse_string_chars (unicode_escape c ++ t) = and_then c (parse_string_chars t).
Proof.
  intros Hc.
  change (parse_string_chars (unicode_escape c ++ t))
    with (match hex4 (hex_digit (c / 4096 mod 16)) (hex_digit (c / 256 mod 16))
                     (hex_digit (c / 16 mod 16)) (hex_digit (c mod 16)) with
          | Some c' => and_then c' (parse_string_chars t)
          | None => None
          end).
  now rewrite hex4_escape.
Qed.

Lemma parse_raw (c : char16) (t : jsstring) :
  c <> 34 -> c <> 92 -> 32 <= c ->
  parse_string_chars (c :: t) = and_then c (parse_string_chars t).
Proof.
  intros H1 H2 H3. cbn [parse_string_chars].
  apply N.eqb_neq in H1, H2. rewrite H1, H2.
  destruct (N.ltb_spec c 32); [lia|reflexivity].
Qed.

Lemma parse_quote_unit (c : char16) (t : jsstring) :
  parse_string_chars (quote_unit c ++ t) = and_then c (parse_string_chars t).
Proof.
  unfold quote_unit.
  repeat match goal with
         | |- context [if ?x =? ?k then _ else _] =>
             destruct (N.eqb_spec x k) as [->|?]; [reflexivity|]
         end.
  destruct (N.ltb_spec c 32).
  - apply parse_unicode_escape. lia.
  - now apply parse_raw.
Qed.

Lemma high_surrogate_range (c : char16) :
  is_high_surrogate c = true -> 0xD800 <= c <= 0xDBFF.
Proof.
  unfold is_high_surrogate. intros H.
  apply andb_true_iff in H as [H1 H2]. apply N.leb_le in H1, H2. lia.
Qed.

Lemma low_surrogate_range (c : char16) :
  is_low_surrogate c = true -> 0xDC00 <= c <= 0xDFFF.
Proof.
  unfold is_low_surrogate. intros H.
  apply andb_true_iff in H as [H1 H2]. apply N.leb_le in H1, H2. lia.
Qed.

Lemma parse_string_chars_quoted_upto (n : nat) (s rest : jsstring) :
  (length s <= n)%nat ->
  parse_string_chars (quote_body s ++ 34 :: rest) = Some (s, rest).
Proof.
  revert s. induction n as [|n IH]; intros s Hlen.
  - destruct s; [reflexivity|simpl in Hlen; lia].
  - destruct s as [|c r]; [reflexivity|].
    assert (IHr : parse_string_chars (quote_body r ++ 34 :: rest) = Some (r, rest))
      by (apply IH; simpl in Hlen; lia).
    cbn [quote_body].
    destruct (is_high_surrogate c) eqn:Hh.
    + apply high_surrogate_range in Hh.
      destruct r as [|d r'].
      * rewrite parse_unicode_escape by lia. reflexivity.
      * destruct (is_low_surrogate d) eqn:Hl.
        -- apply low_surrogate_range in Hl.
           cbn [app]. rewrite !parse_raw by lia.
           rewrite IH by (simpl in Hlen; lia). reflexivity.
        -- rewrite <- app_assoc, parse_unicode_escape by lia.
           now rewrite IHr.
    + destruct (is_low_surrogate c) eqn:Hl.
      * apply low_surrogate_range in Hl.
        rewrite <- app_assoc, parse_unicode_escape by lia. now rewrite IHr.
      * rewrite <- app_assoc, parse_quote_unit. now rewrite IHr.
Qed.

(** [JSON.parse] reads back the string [QuoteJSONString] wrote. *)
Lemma parse_string_chars_quoted (s rest : jsstring) :
  parse_string_chars (quote_body s ++ 34 :: rest) = Some (s, rest).
Proof. apply (parse_string_chars_quoted_upto (length s)). lia. Qed.

(* ================================================================== *)
(** ** Values *)

Lemma number_head (x : number) :
  json_number x ->
  exists c t, NumberToString x = c :: t /\ (c = 45 \/ is_digit c = true).
Proof.
  intros Hx.
  pose proof (parse_number_printed x [] Hx eq_refl) as H.
  rewrite app_nil_r in H.
  destruct (NumberToString x) as [|c t]; [discriminate H|].
  exists c, t. split; [reflexivity|].
  simpl in H. destruct (N.eqb_spec c 45) as [E|_]; [now left|right].
  destruct (is_digit c); [reflexivity|discriminate H].
Qed.

Lemma sign_or_digit (c : char16) :
  c = 45 \/ is_digit c = true -> c = 45 \/ 48 <= c <= 57.
Proof.
  intros [H|H]; [now left|right].
  unfold is_digit in H. apply andb_true_iff in H as [H1 H2].
  apply N.leb_le in H1, H2. lia.
Qed.

Lemma parse_value_number (f : nat) (c : char16) (t : jsstring) :
  c = 45 \/ is_digit c = true ->
  parse_value (S f) (c :: t) =
    match parse_number (c :: t) with
    | Some (x, rest) => Some (JNum x, rest)
    | None => None
    end.
Proof.
  intros Hc. apply sign_or_digit in Hc.
  cbn [parse_value skip_ws]. unfold is_ws.
  other_char. reflexivity.
Qed.

Lemma parse_value_array (f : nat) (d : char16) (r : jsstring) :
  is_ws d = false -> d <> 93 ->
  parse_value (S f) (91 :: d :: r) =
    match parse_elements f (d :: r) with
    | Some (vs, rest) => Some (JArr vs, rest)
    | None => None
    end.
Proof.
  intros Hws Hd. apply N.eqb_neq in Hd.
  cbn [parse_value skip_ws].
  change (is_ws 91) with false. cbv iota.
  change (91 =? 123) with false. change (91 =? 91) with true. cbv iota.
  cbn [skip_ws]. now rewrite Hws, Hd.
Qed.

Lemma parse_value_object (f : nat) (d : char16) (r : jsstring) :
  is_ws d = false -> d <> 125 ->
  parse_value (S f) (123 :: d :: r) =
    match parse_members f (d :: r) with
    | Some (ms, rest) => Some (JObj ms, rest)
    | None => None
    end.
Proof.
  intros Hws Hd. apply N.eqb_neq in Hd.
  cbn [parse_value skip_ws].
  change (is_ws 123) with false. cbv iota.
  change (123 =? 123) with true. cbv iota.
  cbn [skip_ws]. now rewrite Hws, Hd.
Qed.

(** The text of a value starts with a character that is no white space and
    closes no array. *)
Lemma value_head (v : value) :
  plain v ->
  exists c t, stringify v = c :: t /\ is_ws c = false /\ c <> 93.
Proof.
  destruct v as [|[|]|x|s|vs|ms]; intros Hv;
    try (eexists; eexists; split; [reflexivity|split; [reflexivity|discriminate]]).
  simpl in Hv. simpl.
  destruct x as [| |neg s e]; try contradiction. simpl is_finite. cbv iota.
  destruct (number_head _ Hv) as (c & t & -> & Hc).
  exists c, t. split; [reflexivity|].
  apply sign_or_digit in Hc. unfold is_ws.
  split; [|lia].
  other_char. reflexivity.
Qed.

Lemma join_cons (t : jsstring) (ts : list jsstring) :
  join (t :: ts) = t ++ match ts with [] => [] | _ :: _ => 44 :: join ts end.
Proof. destruct ts; simpl; [now rewrite app_nil_r|reflexivity]. Qed.

Lemma parse_elements_join (vs : list value) :
  Forall reads_back vs -> vs <> [] ->
  fold_right (fun v P => plain v /\ P) True vs ->
  forall (f : nat) (rest : jsstring),
    (fold_right (fun v n => S (size v + n)) O vs <= f)%nat ->
    parse_elements f (join (map stringify vs) ++ 93 :: rest) = Some (vs, rest).
Proof.
  induction 1 as [|v vs Hv _ IH]; [congruence|].
  intros Hne [Hpv Hpvs] f rest Hf.
  cbn [fold_right] in Hf. destruct f as [|f]; [lia|].
  cbn [map]. rewrite join_cons, <- app_assoc. cbn [parse_elements].
  destruct vs as [|v2 vs].
  - cbn [map app]. rewrite (Hv Hpv f (93 :: rest)); [reflexivity|lia|reflexivity].
  - change (match map stringify (v2 :: vs) with
            | [] => []
            | _ :: _ => 44 :: join (map stringify (v2 :: vs))
            end ++ 93 :: rest)
      with (44 :: join (map stringify (v2 :: vs)) ++ 93 :: rest).
    rewrite (Hv Hpv f); [|lia|reflexivity].
    cbn [skip_ws]. change (is_ws 44) with false. cbv iota.
    change (44 =? 44) with true. cbv iota.
    rewrite IH; [reflexivity|discriminate|exact Hpvs|lia].
Qed.

Lemma member_text_shape (k : jsstring) (v : value) (tail : jsstring) :
  member_text (k, v) ++ tail
    = 34 :: quote_body k ++ 34 :: 58 :: stringify v ++ tail.
Proof.
  unfold member_text, QuoteJSONString. cbn [app].
  now rewrite <- !app_assoc.
Qed.

Lemma parse_members_step (f : nat) (k t : jsstring) :
  parse_members (S f) (34 :: quote_body k ++ 34 :: 58 :: t) =
    match parse_value f t with
    | Some (v, r3) =>
        match skip_ws r3 with
        | d :: r4 =>
            if d =? 44 then
              match parse_members f r4 with
              | Some (ms, rest) => Some ((k, v) :: ms, rest)
              | None => None
              end
            else if d =? 125 then Some ([(k, v)], r4)
            else None
        | [] => None
        end
    | None => None
    end.
Proof.
  cbn [parse_members skip_ws]. change (is_ws 34) with false. cbv iota.
  change (34 =? 34) with true. cbv iota.
  rewrite parse_string_chars_quoted. reflexivity.
Qed.

Lemma parse_members_join (ms : list (jsstring * value)) :
  Forall (fun m => reads_back (snd m)) ms -> ms <> [] ->
  fold_right (fun (m : jsstring * value) P => plain (snd m) /\ P) True ms ->
  forall (f : nat) (rest : jsstring),
    (fold_right (fun (m : jsstring * value) n => S (size (snd m) + n)) O ms <= f)%nat ->
    parse_members f (join (map member_text ms) ++ 125 :: rest) = Some (ms, rest).
Proof.
  induction 1 as [|[k v] ms Hv _ IH]; [congruence|].
  intros Hne [Hpv Hpvs] f rest Hf.
  cbn [fold_right snd] in Hf, Hpv, Hv. destruct f as [|f]; [lia|].
  cbn [map]. rewrite join_cons, <- app_assoc, member_text_shape.
  rewrite parse_members_step.
  destruct ms as [|m2 ms].
  - cbn [map app]. rewrite (Hv Hpv f (125 :: rest)); [reflexivity|lia|reflexivity].
  - change (match map member_text (m2 :: ms) with
            | [] => []
            | _ :: _ => 44 :: join (map member_text (m2 :: ms))
            end ++ 125 :: rest)
      with (44 :: join (map member_text (m2 :: ms)) ++ 125 :: rest).
    rewrite (Hv Hpv f); [|lia|reflexivity].
    cbn [skip_ws]. change (is_ws 44) with false. cbv iota.
    change (44 =? 44) with true. cbv iota.
    rewrite IH; [reflexivity|discriminate|exact Hpvs|lia].
Qed.

(** Every value whose numbers JSON text can carry is read back from the
    text [JSON.stringify] gives it. *)
Lemma stringify_reads_back (v : value) : reads_back v.
Proof.
  induction v as [|b|x|s|vs IH|ms IH] using value_rect_nested;
    intros Hplain f rest Hf Hrest;
    (destruct f as [|f]; [simpl in Hf; lia|]).
  - reflexivity.
  - destruct b; reflexivity.
  - simpl in Hplain. cbn [stringify].
    destruct x as [| |neg s e]; try contradiction. cbn [is_finite].
    destruct (number_head _ Hplain) as (c & t & Hshape & Hc).
    pose proof (parse_number_printed _ rest Hplain Hrest) as Hnum.
    rewrite Hshape in Hnum |- *. cbn [app] in Hnum |- *.
    rewrite parse_value_number by exact Hc. now rewrite Hnum.
  - cbn [stringify]. unfold QuoteJSONString.
    change (([34] ++ quote_body s ++ [34]) ++ rest)
      with (34 :: (quote_body s ++ [34]) ++ rest).
    rewrite <- app_assoc.
    change (parse_value (S f) (34 :: quote_body s ++ [34] ++ rest))
      with (match parse_string_chars (quote_body s ++ 34 :: rest) with
            | Some (str, rest') => Some (JStr str, rest')
            | None => None
            end).
    now rewrite parse_string_chars_quoted.
  - destruct vs as [|v vs]; [reflexivity|].
    change (stringify (JArr (v :: vs)) ++ rest)
      with (91 :: (join (map stringify (v :: vs)) ++ [93]) ++ rest).
    rewrite <- app_assoc. cbn [app].
    assert (Hhead : exists d r,
               join (map stringify (v :: vs)) ++ 93 :: rest = d :: r /\
               is_ws d = false /\ d <> 93).
    { destruct Hplain as [Hpv _].
      destruct (value_head v Hpv) as (c & t & Hc & Hws & Hne).
      cbn [map]. rewrite join_cons, Hc. cbn [app]. eauto. }
    destruct Hhead as (d & r & Hshape & Hws & Hd).
    rewrite Hshape, parse_value_array by assumption.
    rewrite <- Hshape, parse_elements_join;
      [reflexivity|exact IH|discriminate|exact Hplain|].
    cbn [size] in Hf. apply le_S_n. exact Hf.
  - destruct ms as [|[k v] ms]; [reflexivity|].
    change (stringify (JObj ((k, v) :: ms)) ++ rest)
      with (123 :: (join (map member_text ((k, v) :: ms)) ++ [125]) ++ rest).
    rewrite <- app_assoc. cbn [app].
    assert (Hhead : exists r,
               join (map member_text ((k, v) :: ms)) ++ 125 :: rest = 34 :: r).
    { cbn [map]. rewrite join_cons. unfold member_text, QuoteJSONString.
      cbn [app]. eauto. }
    destruct Hhead as (r & Hshape).
    rewrite Hshape, parse_value_object; [|reflexivity|discriminate].
    rewrite <- Hshape, parse_members_join;
      [reflexivity|exact IH|discriminate|exact Hplain|].
    cbn [size] in Hf. apply le_S_n. exact Hf.
Qed.

Lemma length_join_elements (vs : list value) :
  Forall (fun v => size v <= length (stringify v))%nat vs ->
  (fold_right (fun v n => S (size v + n)) O vs
   <= length (join (map stringify vs)) + 1)%nat.
Proof.
  induction 1 as [|v vs Hv _ IH]; [simpl; lia|].
  cbn [map fold_right]. rewrite join_cons, length_app.
  destruct vs as [|v2 vs]; [simpl; lia|].
  cbn [map length] in IH |- *. lia.
Qed.

Lemma length_member_text (m : jsstring * value) :
  (length (stringify (snd m)) + 3 <= length (member_text m))%nat.
Proof.
  destruct m as [k v]. unfold member_text, QuoteJSONString.
  rewrite !length_app. simpl. lia.
Qed.

Lemma length_join_members (ms : list (jsstring * value)) :
  Forall (fun m => size (snd m) <= length (stringify (snd m)))%nat ms ->
  (fold_right (fun (m : jsstring * value) n => S (size (snd m) + n)) O ms
   <= length (join (map member_text ms)) + 1)%nat.
Proof.
  induction 1 as [|m ms Hm _ IH]; [simpl; lia|].
  cbn [map fold_right]. rewrite join_cons, length_app.
  pose proof (length_member_text m).
  destruct ms as [|m2 ms]; [simpl; lia|].
  cbn [map length] in IH |- *. lia.
Qed.

(** The text of a value is at least as long as the bound on the calls. *)
Lemma size_le_length (v : value) :
  plain v -> (size v <= length (stringify v))%nat.
Proof.
  induction v as [|b|x|s|vs IH|ms IH] using value_rect_nested; intros Hplain.
  - simpl; lia.
  - destruct b; simpl; lia.
  - simpl in Hplain. destruct x as [| |neg s e]; try contradiction.
    destruct (number_head _ Hplain) as (c & t & Hshape & _).
    cbn [stringify is_finite size]. rewrite Hshape. simpl. lia.
  - cbn [stringify size]. unfold QuoteJSONString. rewrite !length_app. simpl. lia.
  - assert (H : Forall (fun v => size v <= length (stringify v))%nat vs).
    { cbn [plain] in Hplain. induction IH as [|v vs Hv _ IHvs]; constructor.
      - apply Hv, Hplain.
      - apply IHvs, Hplain. }
    apply length_join_elements in H.
    change (stringify (JArr vs)) with (91 :: join (map stringify vs) ++ [93]).
    cbn [size length]. rewrite length_app. simpl length. lia.
  - assert (H : Forall (fun m => size (snd m) <= length (stringify (snd m)))%nat ms).
    { cbn [plain] in Hplain. induction IH as [|m ms Hm _ IHms]; constructor.
      - apply Hm, Hplain.
      - apply IHms, Hplain. }
    apply length_join_members in H.
    change (stringify (JObj ms)) with (123 :: join (map member_text ms) ++ [125]).
    cbn [size length]. rewrite length_app. simpl length. lia.
Qed.

(** [JSON.parse(JSON.stringify(v))] is [v]. *)
Lemma parse_stringify (v : value) :
  plain v -> JSON.parse (stringify v) = Normal v.
Proof.
  intros Hplain. unfold JSON.parse.
  pose proof (stringify_reads_back v Hplain (fuel_for (stringify v)) []) as H.
  rewrite app_nil_r in H. rewrite H; [reflexivity| |reflexivity].
  pose proof (size_le_length v Hplain). unfold fuel_for. lia.
Qed.

(** What the text can not carry comes back as [null]. *)
Lemma parse_stringify_NaN :
  JSON.parse (stringify (JNum NaN)) = Normal JNull /\
  JSON.parse (stringify (JNum (Infinity false))) = Normal JNull /\
  JSON.parse (stringify (JNum (Finite true 0 0))) = Normal (JNum (Finite false 0 0)).
Proof. repeat split. Qed.

(* ================================================================== *)
(** ** A profile and its object *)

Lemma all_some_map {A B} (f : B -> option A) (g : A -> B) (l : list A) :
  (forall x, f (g x) = Some x) -> all_some f (map g l) = Some l.
Proof.
  intros Hfg. induction l as [|x l IH]; simpl; [reflexivity|].
  now rewrite Hfg, IH.
Qed.

Lemma Medication_of_object (m : Medication.t) :
  Medication_of (Medication_object m) = Some m.
Proof. destruct m as [a b c d e [f|] g]; reflexivity. Qed.

Lemma HealthGoal_of_object (g : HealthGoal.t) :
  HealthGoal_of (HealthGoal_object g) = Some g.
Proof. destruct g; reflexivity. Qed.

Lemma VitalSign_of_object (s : VitalSign.t) :
  VitalSign_of (VitalSign_object s) = Some s.
Proof. destruct s; reflexivity. Qed.

Lemma Appointment_of_object (a : Appointment.t) :
  Appointment_of (Appointment_object a) = Some a.
Proof. destruct a as [a b c d e f g [h|]]; reflexivity. Qed.

Lemma UserProfile_of_object (p : UserProfile) :
  UserProfile_of (UserProfile_object p) = Some p.
Proof.
  destruct p as [f1 f2 f3 f4 f5 f6 f7 f8 f9 f10 f11 f12 f13 f14 f15 ms gs ss aps].
  pose proof (all_some_map _ _ ms Medication_of_object) as Hms.
  pose proof (all_some_map _ _ gs HealthGoal_of_object) as Hgs.
  pose proof (all_some_map _ _ ss VitalSign_of_object) as Hss.
  pose proof (all_some_map _ _ aps Appointment_of_object) as Haps.
  unfold UserProfile_of, UserProfile_object. cbn [currentMedications healthGoals vitalSigns appointments].
  remember (map Medication_object ms) as l1.
  remember (map HealthGoal_object gs) as l2.
  remember (map VitalSign_object ss) as l3.
  remember (map Appointment_object aps) as l4.
  cbn -[all_some Medication_of HealthGoal_of VitalSign_of Appointment_of].
  now rewrite Hms, Hgs, Hss, Haps.
Qed.

Lemma asUser_object (p : UserProfile) : asUser (UserProfile_object p) = Profile p.
Proof.
  unfold asUser. rewrite UserProfile_of_object. reflexivity.
Qed.

Lemma plain_map {A} (g : A -> value) (l : list A) :
  Forall (fun x => plain (g x)) l ->
  fold_right (fun v P => plain v /\ P) True (map g l).
Proof. induction 1; simpl; auto. Qed.

Lemma plain_object (p : UserProfile) :
  valid_profile p -> plain (UserProfile_object p).
Proof.
  intros [Hgoals Hsigns]. unfold UserProfile_object.
  cbn [plain fold_right snd].
  repeat split; apply plain_map.
  - apply Forall_forall. intros m _. destruct m as [a b c d e [f|] g]; simpl; tauto.
  - eapply Forall_impl; [|exact Hgoals]. intros g [Ht Hc]. simpl. tauto.
  - eapply Forall_impl; [|exact Hsigns]. intros s Hs. simpl. tauto.
  - apply Forall_forall. intros a _. destruct a as [a b c d e f g [h|]]; simpl; tauto.
Qed.

(* ================================================================== *)
(** ** The two effects *)

Lemma getItem_setItem (k v : jsstring) (st : Storage) :
  getItem k (setItem k v st) = Some v.
Proof.
  induction st as [|[k' v'] st IH]; simpl.
  - now rewrite str_eqb_refl.
  - destruct (str_eqb k k') eqn:E; simpl; [now rewrite str_eqb_refl|].
    now rewrite E.
Qed.

Lemma deserialize_serialize (p : UserProfile) :
  valid_profile p -> deserialize (serialize p) = Normal (Profile p).
Proof.
  intros Hp. unfold deserialize, serialize, stringify_user.
  rewrite parse_stringify by now apply plain_object.
  cbn [bind]. now rewrite asUser_object.
Qed.

(** C2. A profile whose numbers JSON text can carry comes back from its
    stored text as it was: what [loadEffect] makes of the text [saveEffect]
    stores for the profile is the profile, and running the second effect
    and then the first leaves it in the state. *)
Theorem serialization_round_trip (p : UserProfile) (w : World) :
  valid_profile p -> user w = Profile p -> isLoading w = false ->
  deserialize (serialize p) = Normal (Profile p) /\
  exists w', loadEffect (saveEffect w) = Normal w' /\ user w' = Profile p.
Proof.
  intros Hp Hu Hl. pose proof (deserialize_serialize p Hp) as Hrt.
  split; [exact Hrt|].
  unfold saveEffect. rewrite Hu, Hl. cbn [truthy negb andb].
  unfold loadEffect, localStorage_setItem. cbn [localStorage].
  rewrite getItem_setItem.
  unfold deserialize, serialize in Hrt.
  destruct (stringify_user (Profile p)) as [|c t] eqn:Etext;
    [discriminate Hrt|].
  cbn [truthy_string].
  destruct (JSON.parse (c :: t)) as [v|e]; [|discriminate Hrt].
  simpl in Hrt. injection Hrt as Hv.
  eexists; split; [reflexivity|]. exact Hv.
Qed.

Lemma defaultUser_valid : valid_profile defaultUser.
Proof.
  split; repeat constructor; try discriminate; vm_compute; discriminate.
Qed.

Lemma serialization_round_trip_witness :
  deserialize (serialize defaultUser) = Normal (Profile defaultUser) /\
  exists w',
    loadEffect
      (saveEffect (setIsLoading false (setUser (Profile defaultUser) (mount []))))
      = Normal w' /\
    user w' = Profile defaultUser.
Proof.
  apply (serialization_round_trip defaultUser);
    [exact defaultUser_valid | reflexivity | reflexivity].
Defined.

(** A profile with a number the text can not carry does not come back:
    [NaN] is stored as [null], and what is loaded is no profile. *)
Lemma serialization_NaN :
  let g := HealthGoal.Build_t (u "1") (u "water") NaN (num 5) (u "glasses") in
  let p := with_healthGoals [g] defaultUser in
  exists v, deserialize (serialize p) = Normal (Foreign v).
Proof. eexists. vm_compute. reflexivity. Qed.

(** C1. When the text stored under the key is not JSON, the first effect
    completes normally (the exception of [JSON.parse] is caught and goes no
    further), the profile in the state is the default one and loading is
    over; the effect itself leaves the store as it was. *)
Theorem loadEffect_corrupt (w : World) (text : jsstring) :
  getItem STORAGE_KEY (localStorage w) = Some text ->
  corrupt text ->
  exists w',
    loadEffect w = Normal w' /\
    user w' = Profile defaultUser /\
    isLoading w' = false /\
    localStorage w' = localStorage w.
Proof.
  intros Hget Hbad. unfold loadEffect. rewrite Hget.
  destruct text as [|c t]; cbn [truthy_string].
  - eexists; repeat split.
  - destruct (JSON.parse (c :: t)) as [v|e] eqn:E.
    + exfalso. exact (Hbad v E).
    + eexists; repeat split.
Qed.

Lemma loadEffect_corrupt_witness :
  exists w',
    loadEffect (mount [(STORAGE_KEY, u "{firstName: Alex")]) = Normal w' /\
    user w' = Profile defaultUser /\
    isLoading w' = false /\
    localStorage w' = [(STORAGE_KEY, u "{firstName: Alex")].
Proof.
  apply (loadEffect_corrupt (mount [(STORAGE_KEY, u "{firstName: Alex")])
                            (u "{firstName: Alex")).
  - reflexivity.
  - intros v H. vm_compute in H. discriminate H.
Defined.

(** The second effect, run on the state the first one leaves, then puts
    the text of the default profile in the place of the corrupt one. *)
Lemma saveEffect_after_corrupt (w : World) (text : jsstring) :
  getItem STORAGE_KEY (localStorage w) = Some text ->
  corrupt text ->
  exists w',
    loadEffect w = Normal w' /\
    getItem STORAGE_KEY (localStorage (saveEffect w'))
      = Some (serialize defaultUser).
Proof.
  intros Hget Hbad. unfold loadEffect. rewrite Hget.
  assert (Hsave : forall w0,
             getItem STORAGE_KEY
               (localStorage
                  (saveEffect (setIsLoading false (setUser (Profile defaultUser) w0))))
             = Some (serialize defaultUser))
    by (intros w0; apply getItem_setItem).
  destruct text as [|c t]; cbn [truthy_string].
  - eexists; split; [reflexivity|apply Hsave].
  - destruct (JSON.parse (c :: t)) as [v|e] eqn:E.
    + exfalso. exact (Hbad v E).
    + eexists; split; [reflexivity|apply Hsave].
Qed.

(** With nothing stored the first effect gives the default profile. *)
Lemma loadEffect_absent (w : World) :
  getItem STORAGE_KEY (localStorage w) = None ->
  loadEffect w = Normal (setIsLoading false (setUser (Profile defaultUser) w)).
Proof. intros Hget. unfold loadEffect. now rewrite Hget. Qed.

(** A stored text that is JSON is taken as it is, whatever it denotes. *)
Lemma loadEffect_unchecked :
  option_map user
    (match loadEffect (mount [(STORAGE_KEY, u "42")]) with
     | Normal w' => Some w'
     | Throw _ => None
     end) = Some (Foreign (JNum (num 42))).
Proof. reflexivity. Qed.

(* ================================================================== *)
(** ** The fuel of [JSON.parse] is enough *)

Lemma parse_value_step (f : nat) (s : jsstring) :
  parse_value (S f) s = value_step (parse_elements f) (parse_members f) s.
Proof. reflexivity. Qed.

Lemma parse_elements_step (f : nat) (s : jsstring) :
  parse_elements (S f) s = elements_step (parse_value f) (parse_elements f) s.
Proof. reflexivity. Qed.

Lemma parse_members_layer (f : nat) (s : jsstring) :
  parse_members (S f) s = members_step (parse_value f) (parse_members f) s.
Proof. reflexivity. Qed.

Lemma skip_ws_length (s : jsstring) : (length (skip_ws s) <= length s)%nat.
Proof.
  induction s as [|c r IH]; simpl; [lia|].
  destruct (is_ws c); simpl; lia.
Qed.

Lemma skip_ws_cons (s : jsstring) (c : char16) (r : jsstring) :
  skip_ws s = c :: r -> (length r < length s)%nat.
Proof.
  intros H. pose proof (skip_ws_length s) as L. rewrite H in L. simpl in L. lia.
Qed.

Lemma strip_prefix_length (p s r : jsstring) :
  strip_prefix p s = Some r -> (length r <= length s)%nat.
Proof.
  revert s; induction p as [|x p IH]; intros [|y s]; simpl; intros H;
    try discriminate; try (injection H as <-; simpl; lia).
  destruct (x =? y); [|discriminate]. apply IH in H. lia.
Qed.

Lemma parse_string_chars_length_upto (n : nat) (s str r : jsstring) :
  (length s <= n)%nat ->
  parse_string_chars s = Some (str, r) -> (length r < length s)%nat.
Proof.
  revert s str. induction n as [|n IH]; intros s str Hn H.
  - destruct s; [discriminate H|simpl in Hn; lia].
  - destruct s as [|c s]; [discriminate H|].
    cbn [parse_string_chars] in H.
    destruct (c =? 34); [injection H as _ <-; simpl; lia|].
    destruct (c =? 92).
    + destruct s as [|e r1]; [discriminate H|].
      destruct (e =? 117).
      * destruct r1 as [|h1 [|h2 [|h3 [|h4 r2]]]]; try discriminate H.
        destruct (hex4 h1 h2 h3 h4); [|discriminate H].
        destruct (parse_string_chars r2) as [[str' rest]|] eqn:E;
          [|discriminate H].
        injection H as _ <-.
        apply IH in E; [simpl; lia|simpl in Hn; lia].
      * destruct (unescape e); [|discriminate H].
        destruct (parse_string_chars r1) as [[str' rest]|] eqn:E;
          [|discriminate H].
        injection H as _ <-.
        apply IH in E; [simpl; lia|simpl in Hn; lia].
    + destruct (c <? 32); [discriminate H|].
      destruct (parse_string_chars s) as [[str' rest]|] eqn:E;
        [|discriminate H].
      injection H as _ <-.
      apply IH in E; [simpl; lia|simpl in Hn; lia].
Qed.

Lemma parse_string_chars_consumes : consumes parse_string_chars.
Proof.
  intros s str r. apply (parse_string_chars_length_upto (length s)). lia.
Qed.

Lemma span_digits_length (s ds r : jsstring) :
  span_digits s = (ds, r) -> (length r <= length s)%nat.
Proof.
  revert ds r; induction s as [|c s IH]; intros ds r H; simpl in H.
  - injection H as _ <-. simpl; lia.
  - destruct (is_digit c).
    + destruct (span_digits s) as [ds' r'] eqn:E. injection H as _ <-.
      specialize (IH _ _ eq_refl). simpl; lia.
    + injection H as _ <-. simpl; lia.
Qed.

Lemma parse_frac_length (s ds r : jsstring) :
  parse_frac s = Some (ds, r) -> (length r <= length s)%nat.
Proof.
  unfold parse_frac. destruct s as [|c s]; intros H.
  - injection H as _ <-. simpl; lia.
  - destruct (c =? 46).
    + destruct (span_digits s) as [[|d ds'] r'] eqn:E; [discriminate H|].
      injection H as _ <-. apply span_digits_length in E. simpl; lia.
    + injection H as _ <-. simpl; lia.
Qed.

Lemma parse_exp_length (s : jsstring) (x : Z) (r : jsstring) :
  parse_exp s = Some (x, r) -> (length r <= length s)%nat.
Proof.
  unfold parse_exp. destruct s as [|c s]; intros H.
  - injection H as _ <-. simpl; lia.
  - destruct ((c =? 101) || (c =? 69)).
    + assert (Hsign : forall r1, (length r1 <= length s)%nat ->
                match span_digits r1 with
                | ([], _) => None
                | (d :: ds, rest) => Some (rest)
                end = Some r -> (length r <= length (c :: s))%nat).
      { intros r1 Hr1 H1.
        destruct (span_digits r1) as [[|d ds'] r'] eqn:E; [discriminate H1|].
        injection H1 as <-. apply span_digits_length in E. simpl; lia. }
      destruct s as [|d s'].
      * destruct (span_digits []) as [[|d ds'] r'] eqn:E; [discriminate H|].
        simpl in E. discriminate E.
      * destruct (d =? 45); [|destruct (d =? 43)];
          (match type of H with
           | context [span_digits ?r1] =>
               apply (Hsign r1); [simpl; lia|];
               destruct (span_digits r1) as [[|? ?] ?];
               [discriminate H | injection H as _ <-; reflexivity]
           end).
    + injection H as _ <-. simpl; lia.
Qed.

Lemma parse_unsigned_consumes (neg : bool) : consumes (parse_unsigned neg).
Proof.
  intros s x r H. unfold parse_unsigned in H.
  destruct s as [|c s]; [discriminate H|].
  destruct (is_digit c) eqn:Hc; [|discriminate H].
  assert (Hint : forall int s2,
             (if c =? 48 then ([48], s) else span_digits (c :: s)) = (int, s2) ->
             (length s2 <= length s)%nat).
  { intros int s2 E. destruct (c =? 48).
    - injection E as _ <-. lia.
    - simpl in E. rewrite Hc in E.
      destruct (span_digits s) as [ds' r'] eqn:E'. injection E as _ <-.
      now apply span_digits_length in E'. }
  destruct (if c =? 48 then ([48], s) else span_digits (c :: s))
    as [int s2] eqn:E.
  specialize (Hint _ _ eq_refl).
  destruct (parse_frac s2) as [[frac s3]|] eqn:Ef; [|discriminate H].
  destruct (parse_exp s3) as [[ex s4]|] eqn:Ee; [|discriminate H].
  injection H as _ <-.
  apply parse_frac_length in Ef. apply parse_exp_length in Ee. simpl; lia.
Qed.

Lemma parse_number_consumes : consumes parse_number.
Proof.
  intros s x r H. unfold parse_number in H.
  destruct s as [|c s]; [discriminate H|].
  destruct (c =? 45).
  - apply parse_unsigned_consumes in H. simpl; lia.
  - now apply parse_unsigned_consumes in H.
Qed.

Lemma value_step_consumes pe pm :
  consumes pe -> consumes pm -> consumes (value_step pe pm).
Proof.
  intros Hpe Hpm s v rest H. unfold value_step in H.
  destruct (skip_ws s) as [|c r] eqn:Es; [discriminate H|].
  apply skip_ws_cons in Es.
  destruct (c =? 123).
  { destruct (skip_ws r) as [|d r'] eqn:Er; [discriminate H|].
    apply skip_ws_cons in Er.
    destruct (d =? 125); [injection H as _ <-; lia|].
    destruct (pm (d :: r')) as [[ms rest']|] eqn:E; [|discriminate H].
    injection H as _ <-. apply Hpm in E. simpl in E. lia. }
  destruct (c =? 91).
  { destruct (skip_ws r) as [|d r'] eqn:Er; [discriminate H|].
    apply skip_ws_cons in Er.
    destruct (d =? 93); [injection H as _ <-; lia|].
    destruct (pe (d :: r')) as [[vs rest']|] eqn:E; [|discriminate H].
    injection H as _ <-. apply Hpe in E. simpl in E. lia. }
  destruct (c =? 34).
  { destruct (parse_string_chars r) as [[str rest']|] eqn:E; [|discriminate H].
    injection H as _ <-. apply parse_string_chars_consumes in E. lia. }
  destruct (c =? 116).
  { destruct (strip_prefix (u "rue") r) as [rest'|] eqn:E; [|discriminate H].
    injection H as _ <-. apply strip_prefix_length in E. lia. }
  destruct (c =? 102).
  { destruct (strip_prefix (u "alse") r) as [rest'|] eqn:E; [|discriminate H].
    injection H as _ <-. apply strip_prefix_length in E. lia. }
  destruct (c =? 110).
  { destruct (strip_prefix (u "ull") r) as [rest'|] eqn:E; [|discriminate H].
    injection H as _ <-. apply strip_prefix_length in E. lia. }
  destruct (parse_number (c :: r)) as [[x rest']|] eqn:E; [|discriminate H].
  injection H as _ <-. apply parse_number_consumes in E. simpl in E. lia.
Qed.

Lemma elements_step_consumes pv pe :
  consumes pv -> consumes pe -> consumes (elements_step pv pe).
Proof.
  intros Hpv Hpe s vs rest H. unfold elements_step in H.
  destruct (pv s) as [[v r]|] eqn:Ev; [|discriminate H]. apply Hpv in Ev.
  destruct (skip_ws r) as [|c r'] eqn:Er; [discriminate H|].
  apply skip_ws_cons in Er.
  destruct (c =? 44).
  - destruct (pe r') as [[vs' rest']|] eqn:E; [|discriminate H].
    injection H as _ <-. apply Hpe in E. lia.
  - destruct (c =? 93); [|discriminate H]. injection H as _ <-. lia.
Qed.

Lemma members_step_consumes pv pm :
  consumes pv -> consumes pm -> consumes (members_step pv pm).
Proof.
  intros Hpv Hpm s ms rest H. unfold members_step in H.
  destruct (skip_ws s) as [|q r0] eqn:Es; [discriminate H|].
  apply skip_ws_cons in Es.
  destruct (q =? 34); [|discriminate H].
  destruct (parse_string_chars r0) as [[k r1]|] eqn:Ek; [|discriminate H].
  apply parse_string_chars_consumes in Ek.
  destruct (skip_ws r1) as [|c r2] eqn:E1; [discriminate H|].
  apply skip_ws_cons in E1.
  destruct (c =? 58); [|discriminate H].
  destruct (pv r2) as [[v r3]|] eqn:Ev; [|discriminate H]. apply Hpv in Ev.
  destruct (skip_ws r3) as [|d r4] eqn:E3; [discriminate H|].
  apply skip_ws_cons in E3.
  destruct (d =? 44).
  - destruct (pm r4) as [[ms' rest']|] eqn:E; [|discriminate H].
    injection H as _ <-. apply Hpm in E. lia.
  - destruct (d =? 125); [|discriminate H]. injection H as _ <-. lia.
Qed.

Lemma parsers_consume (f : nat) :
  consumes (parse_value f) /\ consumes (parse_elements f) /\
  consumes (parse_members f).
Proof.
  induction f as [|f (IHv & IHe & IHm)].
  - repeat split; intros s x r H; discriminate H.
  - repeat split; intros s x r H.
    + rewrite parse_value_step in H.
      exact (value_step_consumes _ _ IHe IHm s x r H).
    + rewrite parse_elements_step in H.
      exact (elements_step_consumes _ _ IHv IHe s x r H).
    + rewrite parse_members_layer in H.
      exact (members_step_consumes _ _ IHv IHm s x r H).
Qed.

Lemma value_step_transfer pe pm pe' pm' (s : jsstring) v rest :
  value_step pe pm s = Some (v, rest) ->
  (forall s1 x, (length s1 < length s)%nat ->
                pe s1 = Some (x, rest) -> pe' s1 = Some (x, rest)) ->
  (forall s1 x, (length s1 < length s)%nat ->
                pm s1 = Some (x, rest) -> pm' s1 = Some (x, rest)) ->
  value_step pe' pm' s = Some (v, rest).
Proof.
  intros H Hpe Hpm. unfold value_step in *.
  destruct (skip_ws s) as [|c r] eqn:Es; [discriminate H|].
  apply skip_ws_cons in Es.
  destruct (c =? 123).
  { destruct (skip_ws r) as [|d r'] eqn:Er; [discriminate H|].
    apply skip_ws_cons in Er.
    destruct (d =? 125); [exact H|].
    destruct (pm (d :: r')) as [[ms rest']|] eqn:E; [|discriminate H].
    injection H as <- <-. rewrite (Hpm (d :: r') ms ltac:(simpl; lia) E). reflexivity. }
  destruct (c =? 91); [|exact H].
  destruct (skip_ws r) as [|d r'] eqn:Er; [discriminate H|].
  apply skip_ws_cons in Er.
  destruct (d =? 93); [exact H|].
  destruct (pe (d :: r')) as [[vs rest']|] eqn:E; [|discriminate H].
  injection H as <- <-. rewrite (Hpe (d :: r') vs ltac:(simpl; lia) E). reflexivity.
Qed.

Lemma elements_step_transfer pv pe pv' pe' (s : jsstring) vs rest :
  consumes pv -> consumes pe ->
  elements_step pv pe s = Some (vs, rest) ->
  (forall v r, (length rest < length r)%nat ->
               pv s = Some (v, r) -> pv' s = Some (v, r)) ->
  (forall s1 x, (length s1 < length s)%nat ->
                pe s1 = Some (x, rest) -> pe' s1 = Some (x, rest)) ->
  elements_step pv' pe' s = Some (vs, rest).
Proof.
  intros Cv Ce H Hpv Hpe. unfold elements_step in *.
  destruct (pv s) as [[v r]|] eqn:Ev; [|discriminate H].
  pose proof (Cv _ _ _ Ev) as Lv.
  destruct (skip_ws r) as [|c r'] eqn:Er; [discriminate H|].
  pose proof (skip_ws_cons _ _ _ Er) as Lr.
  destruct (c =? 44) eqn:Ec.
  - destruct (pe r') as [[vs' rest']|] eqn:E; [|discriminate H].
    injection H as <- <-. pose proof (Ce _ _ _ E) as Le.
    rewrite (Hpv v r ltac:(lia) eq_refl), Er, Ec.
    rewrite (Hpe r' vs' ltac:(lia) E). reflexivity.
  - destruct (c =? 93) eqn:Ec'; [|discriminate H].
    injection H as <- <-.
    rewrite (Hpv v r ltac:(lia) eq_refl), Er, Ec, Ec'. reflexivity.
Qed.

Lemma members_step_transfer pv pm pv' pm' (s : jsstring) ms rest :
  consumes pv -> consumes pm ->
  members_step pv pm s = Some (ms, rest) ->
  (forall s1 v r, (length s1 < length s)%nat -> (length rest < length r)%nat ->
                  pv s1 = Some (v, r) -> pv' s1 = Some (v, r)) ->
  (forall s1 x, (length s1 < length s)%nat ->
                pm s1 = Some (x, rest) -> pm' s1 = Some (x, rest)) ->
  members_step pv' pm' s = Some (ms, rest).
Proof.
  intros Cv Cm H Hpv Hpm. unfold members_step in *.
  destruct (skip_ws s) as [|q r0] eqn:Es; [discriminate H|].
  apply skip_ws_cons in Es.
  destruct (q =? 34); [|discriminate H].
  destruct (parse_string_chars r0) as [[k r1]|] eqn:Ek; [|discriminate H].
  apply parse_string_chars_consumes in Ek.
  destruct (skip_ws r1) as [|c r2] eqn:E1; [discriminate H|].
  apply skip_ws_cons in E1.
  destruct (c =? 58); [|discriminate H].
  destruct (pv r2) as [[v r3]|] eqn:Ev; [|discriminate H].
  pose proof (Cv _ _ _ Ev) as Lv.
  destruct (skip_ws r3) as [|d r4] eqn:E3; [discriminate H|].
  pose proof (skip_ws_cons _ _ _ E3) as L3.
  destruct (d =? 44) eqn:Ed.
  - destruct (pm r4) as [[ms' rest']|] eqn:E; [|discriminate H].
    injection H as <- <-. pose proof (Cm _ _ _ E) as Le.
    rewrite (Hpv r2 v r3 ltac:(lia) ltac:(lia) Ev), E3, Ed.
    rewrite (Hpm r4 ms' ltac:(lia) E). reflexivity.
  - destruct (d =? 125) eqn:Ed'; [|discriminate H].
    injection H as <- <-.
    rewrite (Hpv r2 v r3 ltac:(lia) ltac:(lia) Ev), E3, Ed, Ed'. reflexivity.
Qed.

Lemma parsers_settled (f : nat) :
  settled parse_value f /\ settled parse_elements f /\ settled parse_members f.
Proof.
  induction f as [|f (IHv & IHe & IHm)].
  - repeat split; intros s x r H; discriminate H.
  - destruct (parsers_consume f) as (Cv & Ce & Cm).
    destruct (parsers_consume (S f)) as (Cv' & Ce' & Cm').
    repeat split; intros s x r H f' Hf'.
    + pose proof (Cv' _ _ _ H) as L.
      destruct f' as [|f']; [lia|].
      rewrite parse_value_step in *.
      apply (value_step_transfer _ _ _ _ _ _ _ H).
      * intros s1 x1 L1 E. pose proof (Ce _ _ _ E).
        apply (IHe _ _ _ E). lia.
      * intros s1 x1 L1 E. pose proof (Cm _ _ _ E).
        apply (IHm _ _ _ E). lia.
    + pose proof (Ce' _ _ _ H) as L.
      destruct f' as [|f']; [lia|].
      rewrite parse_elements_step in *.
      apply (elements_step_transfer _ _ _ _ _ _ _ Cv Ce H).
      * intros v1 r1 L1 E. pose proof (Cv _ _ _ E).
        apply (IHv _ _ _ E). lia.
      * intros s1 x1 L1 E. pose proof (Ce _ _ _ E).
        apply (IHe _ _ _ E). lia.
    + pose proof (Cm' _ _ _ H) as L.
      destruct f' as [|f']; [lia|].
      rewrite parse_members_layer in *.
      apply (members_step_transfer _ _ _ _ _ _ _ Cv Cm H).
      * intros s1 v1 r1 L1 L2 E. pose proof (Cv _ _ _ E).
        apply (IHv _ _ _ E). lia.
      * intros s1 x1 L1 E. pose proof (Cm _ _ _ E).
        apply (IHm _ _ _ E). lia.
Qed.

(** Whatever some fuel lets [parse_value] read of a text, the fuel
    [JSON.parse] gives it lets it read too. *)
Lemma parse_fuel_adequate (s : jsstring) (f : nat) (v : value) (rest : jsstring) :
  parse_value f s = Some (v, rest) ->
  parse_value (fuel_for s) s = Some (v, rest).
Proof.
  intros H. destruct (parsers_settled f) as (Sv & _ & _).
  apply (Sv _ _ _ H). unfold fuel_for. lia.
Qed.

(** A text is corrupt when no fuel at all makes a value of the whole of it. *)
Lemma corrupt_any_fuel (text : jsstring) :
  corrupt text <->
  forall f v rest, parse_value f text = Some (v, rest) -> skip_ws rest <> [].
Proof.
  unfold corrupt, JSON.parse. split.
  - intros Hbad f v rest H Hrest.
    apply parse_fuel_adequate in H. apply (Hbad v). now rewrite H, Hrest.
  - intros Hno v H.
    destruct (parse_value (fuel_for text) text) as [[v' rest]|] eqn:E;
      [|discriminate H].
    destruct (skip_ws rest) eqn:Er; [|discriminate H].
    exact (Hno _ _ _ E Er).
Qed.

(* ================================================================== *)
(** ** More on the two effects *)

Lemma parse_throws_SyntaxError (s : jsstring) (e : exn) :
  JSON.parse s = Throw e -> e = SyntaxError.
Proof.
  unfold JSON.parse.
  destruct (parse_value (fuel_for s) s) as [[v rest]|].
  - destruct (skip_ws rest); [discriminate|]. now intros [= <-].
  - now intros [= <-].
Qed.


Lemma str_eqb_sym (a b : jsstring) : str_eqb a b = str_eqb b a.
Proof.
  destruct (str_eqb a b) eqn:E.
  - apply str_eqb_eq in E. subst. symmetry. apply str_eqb_refl.
  - symmetry. apply str_eqb_neq. apply str_eqb_neq in E. congruence.
Qed.


Lemma setItem_setItem (k v v' : jsstring) (st : Storage) :
  setItem k v (setItem k v' st) = setItem k v st.
Proof.
  induction st as [|[k0 v0] st IH]; simpl.
  - now rewrite str_eqb_refl.
  - destruct (str_eqb k k0) eqn:E; simpl.
    + now rewrite str_eqb_refl.
    + now rewrite E, IH.
Qed.

(** X1. The first effect never throws: whatever is stored, it completes
    normally, loading is over afterwards, and the store is as it was. *)
Theorem loadEffect_completes (w : World) :
  exists w',
    loadEffect w = Normal w' /\
    isLoading w' = false /\
    localStorage w' = localStorage w.
Proof.
  unfold loadEffect.
  destruct (getItem STORAGE_KEY (localStorage w)) as [[|c t]|];
    cbn [truthy_string];
    try (eexists; split; [reflexivity|split; reflexivity]).
  destruct (JSON.parse (c :: t));
    (eexists; split; [reflexivity|split; reflexivity]).
Qed.

(** X2. With nothing stored under the key, or with the empty string stored
    there, the first effect puts the default profile in the state, and
    prints nothing. *)
Theorem loadEffect_default (w : World) :
  getItem STORAGE_KEY (localStorage w) = None \/
  getItem STORAGE_KEY (localStorage w) = Some [] ->
  loadEffect w = Normal (setIsLoading false (setUser (Profile defaultUser) w)).
Proof.
  intros [H|H]; unfold loadEffect; now rewrite H.
Qed.

Lemma loadEffect_default_witness :
  loadEffect (mount [(u "theme", u "dark"); (STORAGE_KEY, [])])
  = Normal (setIsLoading false
              (setUser (Profile defaultUser)
                 (mount [(u "theme", u "dark"); (STORAGE_KEY, [])]))).
Proof.
  apply loadEffect_default. right. reflexivity.
Defined.

(** X3. The first effect prints an error exactly when a text that is not
    empty and not JSON is stored: then one line, with the [SyntaxError],
    is added to the console, and otherwise the console is as it was. *)
Theorem loadEffect_console (w : World) :
  exists w',
    loadEffect w = Normal w' /\
    ((exists text,
         getItem STORAGE_KEY (localStorage w) = Some text /\
         text <> [] /\ corrupt text /\
         console w' = console w ++ [(u "Error loading user data:", SyntaxError)])
     \/
     ((forall text, getItem STORAGE_KEY (localStorage w) = Some text ->
                    text <> [] -> ~ corrupt text) /\
      console w' = console w)).
Proof.
  unfold loadEffect.
  destruct (getItem STORAGE_KEY (localStorage w)) as [[|c t]|] eqn:Hget;
    cbn [truthy_string].
  - eexists; split; [reflexivity|]. right. split; [|reflexivity].
    intros text [= <-] Hne. congruence.
  - destruct (JSON.parse (c :: t)) as [v|e] eqn:E.
    + eexists; split; [reflexivity|]. right. split; [|reflexivity].
      intros text [= <-] _ Hbad. exact (Hbad v E).
    + eexists; split; [reflexivity|]. left. exists (c :: t).
      apply parse_throws_SyntaxError in E as He. subst e.
      repeat split; try discriminate.
      intros v Hv. congruence.
  - eexists; split; [reflexivity|]. right. split; [|reflexivity].
    intros text H. discriminate H.
Qed.






(** X7. Running the second effect again changes nothing more. *)
Theorem saveEffect_idempotent (w : World) :
  saveEffect (saveEffect w) = saveEffect w.
Proof.
  unfold saveEffect.
  destruct (truthy (user w) && negb (isLoading w)) eqn:E.
  - cbn [user isLoading localStorage_setItem]. rewrite E.
    unfold localStorage_setItem. cbn [localStorage user isLoading console].
    now rewrite setItem_setItem.
  - now rewrite E.
Qed.

(** Between mounting and the end of loading nothing is written: the
    second effect leaves a world that is still loading, or has no user, as
    it is, so what a previous session stored is not lost before it is
    read. *)
Theorem saveEffect_waits (st : Storage) (w : World) :
  saveEffect (mount st) = mount st /\
  (isLoading w = true \/ truthy (user w) = false -> saveEffect w = w).
Proof.
  split; [reflexivity|].
  intros [H|H]; unfold saveEffect; rewrite H;
    [now rewrite andb_false_r | reflexivity].
Qed.

(* ================================================================== *)
(** ** What is written can be read *)

Lemma stringify_normalize (v : value) : stringify (normalize v) = stringify v.
Proof.
  induction v as [|b|x|s|vs IH|ms IH] using value_rect_nested;
    try reflexivity.
  - destruct x as [| |neg s e]; try reflexivity.
    cbn [normalize normalize_number stringify is_finite NumberToString].
    destruct (s =? 0); reflexivity.
  - assert (H : map stringify (map normalize vs) = map stringify vs).
    { induction IH as [|v vs Hv _ IHvs]; [reflexivity|].
      cbn [map]. now rewrite Hv, IHvs. }
    cbn [normalize stringify]. now rewrite H.
  - assert (H : map member_text
                  (map (fun m : jsstring * value => (fst m, normalize (snd m))) ms)
                = map member_text ms).
    { induction IH as [|[k v] ms Hv _ IHms]; [reflexivity|].
      cbn [map fst snd member_text] in *. now rewrite Hv, IHms. }
    change (stringify (normalize (JObj ms)))
      with (u "{" ++ join (map member_text
                             (map (fun m : jsstring * value =>
                                     (fst m, normalize (snd m))) ms)) ++ u "}").
    change (stringify (JObj ms)) with (u "{" ++ join (map member_text ms) ++ u "}").
    now rewrite H.
Qed.

Lemma plain_normalize (v : value) : wellformed v -> plain (normalize v).
Proof.
  induction v as [|b|x|s|vs IH|ms IH] using value_rect_nested;
    intros Hwf; try exact I.
  - destruct x as [| |neg s e]; try exact I.
    cbn [normalize normalize_number plain json_number canonical] in *.
    split; [exact Hwf|]. intros ->. reflexivity.
  - cbn [normalize plain wellformed] in *.
    induction IH as [|v vs Hv _ IHvs]; [exact I|].
    cbn [map fold_right] in *. split; [apply Hv|apply IHvs]; apply Hwf.
  - cbn [normalize plain wellformed] in *.
    induction IH as [|[k v] ms Hv _ IHms]; [exact I|].
    cbn [map fold_right fst snd] in *. split; [apply Hv|apply IHms]; apply Hwf.
Qed.

(** [JSON.parse(JSON.stringify(v))] for any value. *)
Lemma parse_stringify_any (v : value) :
  wellformed v -> JSON.parse (stringify v) = Normal (normalize v).
Proof.
  intros Hwf. rewrite <- stringify_normalize.
  apply parse_stringify, plain_normalize, Hwf.
Qed.

Lemma wellformed_map {A} (g : A -> value) (l : list A) :
  Forall (fun x => wellformed (g x)) l ->
  fold_right (fun v P => wellformed v /\ P) True (map g l).
Proof. induction 1; simpl; auto. Qed.

Lemma wellformed_object (p : UserProfile) :
  canonical_profile p -> wellformed (UserProfile_object p).
Proof.
  intros [Hgoals Hsigns]. unfold UserProfile_object.
  cbn [wellformed fold_right snd].
  repeat split; apply wellformed_map.
  - apply Forall_forall. intros m _. destruct m as [a b c d e [f|] g]; simpl; tauto.
  - eapply Forall_impl; [|exact Hgoals]. intros g [Ht Hc]. simpl. tauto.
  - eapply Forall_impl; [|exact Hsigns]. intros s Hs. simpl. tauto.
  - apply Forall_forall. intros a _. destruct a as [a b c d e f g [h|]]; simpl; tauto.
Qed.

(** X8. The second effect never stores a text the first effect would find
    corrupt: the text of any profile, its numbers finite or not, is JSON. *)
Theorem saved_text_is_JSON (p : UserProfile) :
  canonical_profile p -> ~ corrupt (serialize p).
Proof.
  intros Hp Hbad. apply wellformed_object in Hp.
  apply (Hbad (normalize (UserProfile_object p))).
  unfold serialize, stringify_user. now apply parse_stringify_any.
Qed.

Lemma saved_text_is_JSON_witness :
  ~ corrupt
      (serialize
         (with_healthGoals
            [HealthGoal.Build_t (u "1") (u "water") NaN (num 5) (u "glasses")]
            defaultUser)).
Proof.
  apply saved_text_is_JSON.
  split; repeat constructor; vm_compute; try discriminate; exact I.
Defined.

Lemma normalize_Medication_object (m : Medication.t) :
  normalize (Medication_object m) = Medication_object m.
Proof. destruct m as [a b c d e [f|] g]; reflexivity. Qed.

Lemma normalize_Appointment_object (a : Appointment.t) :
  normalize (Appointment_object a) = Appointment_object a.
Proof. destruct a as [a b c d e f g [h|]]; reflexivity. Qed.

Lemma map_normalize_fixed {A} (g : A -> value) (l : list A) :
  (forall x, normalize (g x) = g x) -> map normalize (map g l) = map g l.
Proof.
  intros H. rewrite map_map. apply map_ext. exact H.
Qed.

Lemma all_some_Exists {A B} (f : A -> option B) (l : list A) :
  Exists (fun a => f a = None) l -> all_some f l = None.
Proof.
  induction 1 as [a l Ha|a l _ IH]; simpl.
  - now rewrite Ha.
  - rewrite IH. now destruct (f a).
Qed.

Lemma HealthGoal_of_nonfinite (g : HealthGoal.t) :
  is_finite (HealthGoal.target g) = false \/
  is_finite (HealthGoal.current g) = false ->
  HealthGoal_of (normalize (HealthGoal_object g)) = None.
Proof.
  destruct g as [a b t c e]. cbn [HealthGoal.target HealthGoal.current].
  intros [H|H].
  - destruct t; [reflexivity|reflexivity|discriminate H].
  - destruct c; [| |discriminate H]; destruct t; reflexivity.
Qed.

Lemma VitalSign_of_nonfinite (s : VitalSign.t) :
  is_finite (VitalSign.value s) = false ->
  VitalSign_of (normalize (VitalSign_object s)) = None.
Proof.
  destruct s as [a b x c d e]. cbn [VitalSign.value]. intros H.
  destruct x; [reflexivity|reflexivity|discriminate H].
Qed.

(** The record of the object read back from the text of a profile. *)
Lemma UserProfile_of_normalized (p : UserProfile) :
  UserProfile_of (normalize (UserProfile_object p)) =
    match all_some HealthGoal_of
            (map normalize (map HealthGoal_object (healthGoals p))) with
    | Some gs =>
        match all_some VitalSign_of
                (map normalize (map VitalSign_object (vitalSigns p))) with
        | Some ss => Some (with_vitalSigns ss (with_healthGoals gs p))
        | None => None
        end
    | None => None
    end.
Proof.
  destruct p as [f1 f2 f3 f4 f5 f6 f7 f8 f9 f10 f11 f12 f13 f14 f15 ms gs ss aps].
  pose proof (all_some_map _ _ ms Medication_of_object) as Hms.
  pose proof (all_some_map _ _ aps Appointment_of_object) as Haps.
  rewrite <- (map_normalize_fixed _ ms normalize_Medication_object) in Hms.
  rewrite <- (map_normalize_fixed _ aps normalize_Appointment_object) in Haps.
  unfold UserProfile_object.
  cbn [currentMedications healthGoals vitalSigns appointments
       firstName lastName email phone dateOfBirth gender address
       emergencyContact medicalConditions allergies bloodType height weight
       language notifications].
  change (normalize (JObj ?l))
    with (JObj (map (fun m : jsstring * value => (fst m, normalize (snd m))) l)).
  cbn [map fst snd].
  change (normalize (JArr ?l)) with (JArr (map normalize l)).
  change (normalize (JStr ?x)) with (JStr x).
  change (normalize (JBool ?x)) with (JBool x).
  remember (map normalize (map Medication_object ms)) as l1.
  remember (map normalize (map HealthGoal_object gs)) as l2.
  remember (map normalize (map VitalSign_object ss)) as l3.
  remember (map normalize (map Appointment_object aps)) as l4.
  unfold UserProfile_of.
  cbn -[all_some Medication_of HealthGoal_of VitalSign_of Appointment_of].
  rewrite Hms.
  destruct (all_some HealthGoal_of l2); [|reflexivity].
  destruct (all_some VitalSign_of l3); [|reflexivity].
  now rewrite Haps.
Qed.

(** X9. One number that is [NaN] or an infinity makes the whole stored
    profile unreadable as a profile: its text is JSON, with [null] for that
    number, and what the first effect makes of it is a value that is no
    profile; the default profile is not put in its place. *)
Theorem nonfinite_number_not_reloaded (p : UserProfile) :
  canonical_profile p -> has_nonfinite p ->
  exists v,
    deserialize (serialize p) = Normal (Foreign v) /\
    v <> JNull /\ UserProfile_of v = None.
Proof.
  intros Hcan Hbad. exists (normalize (UserProfile_object p)).
  assert (Hnone : UserProfile_of (normalize (UserProfile_object p)) = None).
  { rewrite UserProfile_of_normalized.
    destruct Hbad as [Hg|Hs].
    - rewrite (all_some_Exists HealthGoal_of); [reflexivity|].
      rewrite map_map. apply Exists_exists.
      apply Exists_exists in Hg as (g & Hin & Hg).
      exists (normalize (HealthGoal_object g)). split.
      + apply in_map_iff. exists g. auto.
      + now apply HealthGoal_of_nonfinite.
    - destruct (all_some HealthGoal_of _); [|reflexivity].
      rewrite (all_some_Exists VitalSign_of); [reflexivity|].
      rewrite map_map. apply Exists_exists.
      apply Exists_exists in Hs as (s & Hin & Hs).
      exists (normalize (VitalSign_object s)). split.
      + apply in_map_iff. exists s. auto.
      + now apply VitalSign_of_nonfinite. }
  split; [|split; [discriminate|exact Hnone]].
  unfold deserialize, serialize, stringify_user.
  rewrite parse_stringify_any by now apply wellformed_object.
  cbn [bind]. unfold asUser. rewrite Hnone. reflexivity.
Qed.

Lemma nonfinite_number_not_reloaded_witness :
  exists v,
    deserialize
      (serialize
         (with_healthGoals
            [HealthGoal.Build_t (u "1") (u "water") NaN (num 5) (u "glasses")]
            defaultUser))
      = Normal (Foreign v) /\
    v <> JNull /\ UserProfile_of v = None.
Proof.
  apply nonfinite_number_not_reloaded.
  - split; repeat constructor; vm_compute; try discriminate; exact I.
  - left. constructor. left. reflexivity.
Defined.



(* ================================================================== *)
(** ** More on the six operations *)




Lemma filter_twice {A} (f : A -> bool) (l : list A) :
  filter f (filter f l) = filter f l.
Proof.
  induction l as [|a l IH]; simpl; [reflexivity|].
  destruct (f a) eqn:E; simpl; [now rewrite E, IH|exact IH].
Qed.

Lemma filter_swap {A} (f g : A -> bool) (l : list A) :
  filter f (filter g l) = filter g (filter f l).
Proof.
  induction l as [|a l IH]; simpl; [reflexivity|].
  destruct (f a) eqn:Ef, (g a) eqn:Eg; simpl;
    rewrite ?Ef, ?Eg, IH; reflexivity.
Qed.

(** X12. Removing is idempotent and removals commute: removing an
    identifier a second time changes nothing, and two removals give the
    same state in either order. *)
Theorem removeMedication_algebra (a b : jsstring) (x : option UserProfile) :
  removeMedication a (removeMedication a x) = removeMedication a x /\
  removeMedication a (removeMedication b x) =
    removeMedication b (removeMedication a x).
Proof.
  destruct x as [p|]; [|split; reflexivity].
  unfold removeMedication, with_currentMedications.
  cbn [currentMedications firstName lastName email phone dateOfBirth gender
       address emergencyContact medicalConditions allergies bloodType height
       weight language notifications healthGoals vitalSigns appointments].
  split.
  - now rewrite filter_twice.
  - now rewrite filter_swap.
Qed.

Lemma with_currentMedications_same (p : UserProfile) :
  with_currentMedications (currentMedications p) p = p.
Proof. destruct p; reflexivity. Qed.

Lemma filter_absent (id : jsstring) (l : list Medication.t) :
  (forall m, In m l -> Medication.id m <> id) ->
  filter (fun med => negb (str_eqb (Medication.id med) id)) l = l.
Proof.
  intros Hno. apply (without_absent id l); [apply filter_without|exact Hno].
Qed.

Lemma remove_added (m : Medication.t) (prev : UserProfile) :
  removeMedication (Medication.id m) (addMedication m (Some prev))
    = removeMedication (Medication.id m) (Some prev).
Proof.
  unfold removeMedication, addMedication, with_currentMedications.
  cbn [currentMedications firstName lastName email phone dateOfBirth gender
       address emergencyContact medicalConditions allergies bloodType height
       weight language notifications healthGoals vitalSigns appointments].
  rewrite filter_app. cbn [filter]. rewrite str_eqb_refl. cbn [negb].
  now rewrite app_nil_r.
Qed.

(** X13. Removing the identifier of a medication just added removes the
    addition together with every older entry of that identifier, so it is
    the removal from the profile before the addition; it gives that profile
    back exactly when no older entry had the identifier. *)
Theorem addMedication_then_remove (m : Medication.t) (prev : UserProfile) :
  removeMedication (Medication.id m) (addMedication m (Some prev))
    = removeMedication (Medication.id m) (Some prev) /\
  ((forall m', In m' (currentMedications prev) ->
               Medication.id m' <> Medication.id m) <->
   removeMedication (Medication.id m) (addMedication m (Some prev)) = Some prev).
Proof.
  split; [apply remove_added|]. rewrite remove_added. split.
  - intros Hno. cbn [removeMedication]. rewrite filter_absent by exact Hno.
    now rewrite with_currentMedications_same.
  - intros Heq m' Hin Hid.
    cbn [removeMedication] in Heq. injection Heq as Heq.
    apply (f_equal currentMedications) in Heq.
    cbn [with_currentMedications currentMedications] in Heq.
    rewrite <- Heq in Hin. apply filter_In in Hin as [_ Hkeep].
    apply str_eqb_eq in Hid. rewrite Hid in Hkeep. discriminate Hkeep.
Qed.

(** X14. Two partial updates in a row are one update by the two partial
    profiles overlaid, the later one on top: each property has the value
    the second names, else the value the first names, else the old one.
    An update by the empty object changes nothing. *)
Theorem updateUser_compose (q1 q2 : Partial.t) (prev : UserProfile) :
  (exists next,
      updateUser q2 (updateUser q1 (Some prev)) = Some next /\
      forall f : field,
        read f next =
          match named f q2 with
          | Some v => v
          | None => match named f q1 with
                    | Some v => v
                    | None => read f prev
                    end
          end) /\
  updateUser Partial.empty (Some prev) = Some prev.
Proof.
  split.
  - eexists; split; [reflexivity|].
    intros f; destruct f; cbn;
      match goal with
      | |- context [spread _ ?o] => destruct o; reflexivity
      end.
  - destruct prev; reflexivity.
Qed.

Lemma spread_twice {A} (a : A) (o : option A) :
  spread (spread a o) o = spread a o.
Proof. destruct o; reflexivity. Qed.

Lemma patch_goal_twice (g : HealthGoal.t) (q : PartialHealthGoal.t) :
  patch_goal (patch_goal g q) q = patch_goal g q.
Proof.
  unfold patch_goal.
  cbn [HealthGoal.id HealthGoal.type HealthGoal.target HealthGoal.current
       HealthGoal.unit].
  now rewrite !spread_twice.
Qed.

(** X15. Updating a goal is idempotent: the same update a second time
    changes nothing, also when the update renames the goal (the renamed
    goals no longer have the identifier looked for, unless the new name is
    the old one, and then the same values are written again).  An update
    by the empty object changes nothing. *)
Theorem updateHealthGoal_idempotent
        (goalId : jsstring) (q : PartialHealthGoal.t) (x : option UserProfile) :
  updateHealthGoal goalId q (updateHealthGoal goalId q x)
    = updateHealthGoal goalId q x /\
  updateHealthGoal goalId empty_goal_patch x = x.
Proof.
  destruct x as [p|]; [|split; reflexivity]. split.
  - unfold updateHealthGoal, with_healthGoals.
    cbn [currentMedications firstName lastName email phone dateOfBirth gender
         address emergencyContact medicalConditions allergies bloodType height
         weight language notifications healthGoals vitalSigns appointments].
    do 2 f_equal. rewrite map_map. apply map_ext. intros g.
    destruct (str_eqb (HealthGoal.id g) goalId) eqn:E; [|now rewrite E].
    destruct (str_eqb (HealthGoal.id (patch_goal g q)) goalId);
      [apply patch_goal_twice|reflexivity].
  - unfold updateHealthGoal.
    replace (map _ (healthGoals p)) with (healthGoals p).
    + now rewrite with_healthGoals_same.
    + symmetry. etransitivity; [|apply map_id]. apply map_ext. intros g.
      destruct (str_eqb (HealthGoal.id g) goalId); [|reflexivity].
      destruct g; reflexivity.
Qed.

Lemma NoDup_map_filter {A B} (f : A -> B) (keep : A -> bool) (l : list A) :
  NoDup (map f l) -> NoDup (map f (filter keep l)).
Proof.
  induction l as [|a l IH]; simpl; intros H; [constructor|].
  inversion H as [|x xs Hnot Hrest]; subst.
  destruct (keep a); simpl; [|auto].
  constructor; [|auto].
  intros Hin. apply Hnot.
  apply in_map_iff in Hin as (y & Hy & Hin).
  apply in_map_iff. exists y. split; [exact Hy|].
  apply filter_In in Hin. tauto.
Qed.

Lemma NoDup_snoc {A} (l : list A) (x : A) :
  NoDup (l ++ [x]) <-> NoDup l /\ ~ In x l.
Proof.
  induction l as [|a l IH]; simpl.
  - split; [intros _; split; [constructor|tauto]|intros _; repeat constructor; tauto].
  - split.
    + intros H. inversion H as [|y ys Hnot Hrest]; subst.
      apply IH in Hrest as [Hl Hx]. split.
      * constructor; [|exact Hl]. intros Hin. apply Hnot, in_or_app. now left.
      * intros [->|Hin]; [|tauto]. apply Hnot, in_or_app. right. now left.
    + intros [H Hx]. inversion H as [|y ys Hnot Hrest]; subst.
      constructor.
      * intros Hin. apply in_app_or in Hin as [Hin|[->|[]]]; tauto.
      * apply IH. tauto.
Qed.

(** X16. The identifiers of the medications stay distinct under removal,
    and under addition exactly when the identifier added is new: the
    profile takes an entry whose identifier is already there, and then
    holds two of one identifier. *)
Theorem medication_ids_distinct (prev : UserProfile) :
  NoDup (medication_ids prev) ->
  (forall id, exists next,
      removeMedication id (Some prev) = Some next /\
      NoDup (medication_ids next)) /\
  (forall m, exists next,
      addMedication m (Some prev) = Some next /\
      (NoDup (medication_ids next) <->
       ~ In (Medication.id m) (medication_ids prev))).
Proof.
  intros Hnd. split.
  - intros id. eexists; split; [reflexivity|].
    unfold medication_ids. cbn [with_currentMedications currentMedications].
    now apply NoDup_map_filter.
  - intros m. eexists; split; [reflexivity|].
    unfold medication_ids in *. cbn [with_currentMedications currentMedications].
    rewrite map_app. cbn [map]. rewrite NoDup_snoc. tauto.
Qed.

Lemma medication_ids_distinct_witness :
  (forall id, exists next,
      removeMedication id (Some defaultUser) = Some next /\
      NoDup (medication_ids next)) /\
  (forall m, exists next,
      addMedication m (Some defaultUser) = Some next /\
      (NoDup (medication_ids next) <->
       ~ In (Medication.id m) (medication_ids defaultUser))).
Proof.
  apply (medication_ids_distinct defaultUser).
  apply NoDup_cons; [intros [H|[]]; discriminate H|].
  apply NoDup_cons; [intros []|constructor].
Defined.

(** X17. Operations on different sequences commute: the state after two
    of them does not depend on the order in which they were applied. *)
Theorem operations_commute
        (m : Medication.t) (medicationId : jsstring) (v : VitalSign.t)
        (a : Appointment.t) (goalId : jsstring) (q : PartialHealthGoal.t)
        (x : option UserProfile) :
  addMedication m (addVitalSign v x) = addVitalSign v (addMedication m x) /\
  addMedication m (addAppointment a x) = addAppointment a (addMedication m x) /\
  addVitalSign v (addAppointment a x) = addAppointment a (addVitalSign v x) /\
  removeMedication medicationId (addVitalSign v x)
    = addVitalSign v (removeMedication medicationId x) /\
  removeMedication medicationId (addAppointment a x)
    = addAppointment a (removeMedication medicationId x) /\
  updateHealthGoal goalId q (addMedication m x)
    = addMedication m (updateHealthGoal goalId q x) /\
  updateHealthGoal goalId q (removeMedication medicationId x)
    = removeMedication medicationId (updateHealthGoal goalId q x) /\
  updateHealthGoal goalId q (addVitalSign v x)
    = addVitalSign v (updateHealthGoal goalId q x) /\
  updateHealthGoal goalId q (addAppointment a x)
    = addAppointment a (updateHealthGoal goalId q x).
Proof. destruct x as [p|]; repeat split. Qed.

(** X19. An addition and a removal of one identifier do not commute:
    added before the removal the entry is gone, added after it the entry
    is there, so the two orders never give the same medications. *)
Lemma add_remove_order (m : Medication.t) (prev : UserProfile) :
  option_map medication_ids
    (addMedication m (removeMedication (Medication.id m) (Some prev)))
  <> option_map medication_ids
       (removeMedication (Medication.id m) (addMedication m (Some prev))).
Proof.
  rewrite remove_added. cbn. intros [= H].
  unfold medication_ids in H. cbn [with_currentMedications currentMedications] in H.
  rewrite map_app in H. cbn [map] in H.
  apply (f_equal (@length _)) in H. rewrite length_app in H. simpl in H. lia.
Qed.

(* ================================================================== *)
(** ** More on [useUser] *)

(** X18. Inside providers [useUser] returns the value of the nearest one,
    whatever providers enclose that one further out, and throws nothing. *)
Theorem useUser_nearest_provider
        (inner outer : list ancestor) (context : Ctx.t) :
  outside_provider inner ->
  useUser (inner ++ Provider context :: outer) = Normal context.
Proof.
  intros Hout. unfold useUser.
  induction inner as [|[v|tag] inner IH]; cbn [app useContext].
  - reflexivity.
  - exfalso; apply (Hout v); left; reflexivity.
  - apply IH; intros v Hin; apply (Hout v); right; exact Hin.
Qed.

Lemma useUser_nearest_provider_witness :
  useUser ([Element (u "main")]
             ++ Provider (provided (setIsLoading false
                                      (setUser (Profile defaultUser) (mount []))))
             :: [Provider (provided (mount [])); Element (u "body")])
  = Normal (provided (setIsLoading false
                        (setUser (Profile defaultUser) (mount [])))).
Proof.
  apply useUser_nearest_provider.
  intros v [H|[]]. discriminate H.
Defined.
